(** * convert_tcx: Peloton TCX to TrainerRoad TCX converter

    A shallow embedding of [src/convert_tcx.py] and the properties of its
    speed recomputation, its text rewriting rules and its fallback path.

    Layout of the development:
    - [Py]: the Python values the script manipulates (exceptions, numbers,
      insertion-ordered dictionaries, text);
    - [Re]: the fragment of Python's [re] and [str.replace] the script uses,
      as an executable backtracking matcher;
    - [ET]: [xml.etree.ElementTree] elements and the [.//tag] path queries;
    - [Runtime]: what the script obtains from the Python runtime (floats,
      [datetime.fromisoformat], the XML parser and serialiser);
    - [Convert]: the script itself, function by function;
    - [Demo]: a small concrete runtime on which examples are evaluated;
    - the theorems.

    The conversion is modelled from the text of the input file to the text
    written to the output file; opening the files and the command line of
    [main] are left out, and so are [clean_value] and [process_element],
    which the conversion never calls. *)

From Stdlib Require Import List Ascii ZArith QArith Bool Arith Lia.
From Stdlib Require String DecimalString.
Import ListNotations String.StringSyntax.

Local Open Scope string_scope.
Local Open Scope nat_scope.

Set Implicit Arguments.
Set Default Goal Selector "!".

(* ================================================================= *)
(** ** Python values *)

Module Py.

(** Document text and element text: a sequence of characters. *)
Definition str := list ascii.

(** [lit "abc"] is the text of a string literal of the script. *)
Definition lit (s : String.string) : str := String.list_ascii_of_string s.

Definition ascii_in (lo hi : nat) (c : ascii) : bool :=
  (lo <=? nat_of_ascii c) && (nat_of_ascii c <=? hi).

Fixpoint str_eqb (a b : str) : bool :=
  match a, b with
  | [], [] => true
  | x :: a', y :: b' => Ascii.eqb x y && str_eqb a' b'
  | _, _ => false
  end.

(** [s.startswith(p)], returning what follows the prefix. *)
Fixpoint strip_prefix (p s : str) : option str :=
  match p with
  | [] => Some s
  | x :: p' =>
      match s with
      | y :: s' => if Ascii.eqb x y then strip_prefix p' s' else None
      | [] => None
      end
  end.

(** The longest prefix of characters of a class, and what follows it. *)
Fixpoint span (p : ascii -> bool) (s : str) : str * str :=
  match s with
  | c :: s' =>
      if p c then let (a, b) := span p s' in (c :: a, b) else ([], s)
  | [] => ([], [])
  end.

(** [p in s] *)
Fixpoint occurs (p s : str) : bool :=
  match strip_prefix p s with
  | Some _ => true
  | None => match s with [] => false | _ :: s' => occurs p s' end
  end.

(** The exceptions the conversion can meet. *)
Inductive exn :=
| ValueError | TypeError | AttributeError | ZeroDivisionError | ParseError.

Inductive result (A : Type) :=
| Ok (a : A)
| Raise (e : exn).
Arguments Ok {A} a.
Arguments Raise {A} e.

Definition bind {A B} (m : result A) (f : A -> result B) : result B :=
  match m with
  | Ok a => f a
  | Raise e => Raise e
  end.

Definition of_option {A} (e : exn) (o : option A) : result A :=
  match o with
  | Some a => Ok a
  | None => Raise e
  end.

(** Python numbers: the script mixes the [int] literal [0] with floats of
    the runtime's float type [F]. *)
Inductive num (F : Type) :=
| Int (z : Z)
| Float (x : F).
Arguments Int {F} z.
Arguments Float {F} x.

(** A [for] loop whose body may raise. *)
Fixpoint for_each {A S} (body : S -> A -> result S) (l : list A) (s : S)
  : result S :=
  match l with
  | [] => Ok s
  | a :: l' => bind (body s a) (for_each body l')
  end.

(** Insertion-ordered [dict]: assigning to a key that is present keeps its
    position, a new key goes to the end. *)
Section Dict.
Variables K V : Type.
Variable eqb : K -> K -> bool.

Definition dict := list (K * V).

Fixpoint dict_set (d : dict) (k : K) (v : V) : dict :=
  match d with
  | [] => [(k, v)]
  | (k', v') :: d' =>
      if eqb k' k then (k, v) :: d' else (k', v') :: dict_set d' k v
  end.

Fixpoint dict_get (d : dict) (k : K) : option V :=
  match d with
  | [] => None
  | (k', v') :: d' => if eqb k' k then Some v' else dict_get d' k
  end.
End Dict.

End Py.

Import Py.

Declare Scope py_scope.
Notation "x <- m ;; k" := (bind m (fun x => k))
  (at level 61, m at next level, right associativity) : py_scope.
Open Scope py_scope.

(* ================================================================= *)
(** ** The regular expressions of the script *)

Module Re.

(** Syntax of the patterns that occur in [convert_tcx_string]. Repetition is
    only ever applied to a one-character class there. *)
Inductive regex :=
| Lit (l : str)                          (* literal (escaped) text        *)
| Chr (p : ascii -> bool)                (* one character of a class      *)
| Rep (greedy : bool) (p : ascii -> bool)(* [c*] when greedy, else [c*?]  *)
| Cat (r1 r2 : regex)
| Group (n : nat) (r : regex)            (* capturing group number [n]    *)
| Ahead (r : regex).                     (* [(?=r)]                       *)

(** Character classes. Text is a sequence of 8-bit characters and the
    classes are those of Python on the ASCII range: [\d] is [0-9] and [\s]
    is the ASCII white space of [str.isspace]. *)
Definition any : ascii -> bool := fun _ => true.              (* [.] under DOTALL *)
Definition dot (c : ascii) : bool := negb (Ascii.eqb c "010"). (* [.] otherwise    *)
Definition digit : ascii -> bool := ascii_in 48 57.            (* [\d] *)
Definition space (c : ascii) : bool :=                         (* [\s] *)
  ascii_in 9 13 c || ascii_in 28 32 c.
Definition not_gt (c : ascii) : bool := negb (Ascii.eqb c ">"). (* [[^>]] *)
Definition digit_or_dot (c : ascii) : bool :=                  (* [[\d.]] *)
  digit c || Ascii.eqb c ".".

(** [c+] *)
Definition Plus (p : ascii -> bool) : regex := Cat (Chr p) (Rep true p).

Definition caps := list (nat * str).

Fixpoint group (n : nat) (g : caps) : str :=
  match g with
  | [] => []
  | (m, s) :: g' => if Nat.eqb m n then s else group n g'
  end.

(** Backtracking, in the order of Python's engine: a lazy repetition tries
    the continuation first and then one more character, a greedy one the
    other way round. *)
Fixpoint rep_lazy {A} (p : ascii -> bool) (k : str -> option A) (s : str)
  : option A :=
  match k s with
  | Some a => Some a
  | None =>
      match s with
      | c :: s' => if p c then rep_lazy p k s' else None
      | [] => None
      end
  end.

Fixpoint rep_greedy {A} (p : ascii -> bool) (k : str -> option A) (s : str)
  : option A :=
  match s with
  | c :: s' =>
      if p c then
        match rep_greedy p k s' with
        | Some a => Some a
        | None => k s
        end
      else k s
  | [] => k s
  end.

Fixpoint exec {A} (r : regex) (s : str) (g : caps)
  (k : str -> caps -> option A) : option A :=
  match r with
  | Lit l =>
      match strip_prefix l s with
      | Some s' => k s' g
      | None => None
      end
  | Chr p =>
      match s with
      | c :: s' => if p c then k s' g else None
      | [] => None
      end
  | Rep true p => rep_greedy p (fun s' => k s' g) s
  | Rep false p => rep_lazy p (fun s' => k s' g) s
  | Cat r1 r2 => exec r1 s g (fun s1 g1 => exec r2 s1 g1 k)
  | Group n r1 =>
      exec r1 s g
        (fun s1 g1 => k s1 ((n, firstn (length s - length s1) s) :: g1))
  | Ahead r1 =>
      match exec r1 s g (fun _ g1 => Some g1) with
      | Some g1 => k s g1
      | None => None
      end
  end.

(** [pattern.match] at the start of [s]: length of the match and groups. *)
Definition match_at (r : regex) (s : str) : option (nat * caps) :=
  exec r s [] (fun s' g => Some (length s - length s', g)).

(** Replacement templates: literal text and [\g<n>] references. *)
Inductive piece :=
| TLit (l : str)
| TGroup (n : nat).

Definition template := list piece.

Definition expand (t : template) (g : caps) : str :=
  flat_map (fun p => match p with TLit l => l | TGroup n => group n g end) t.

(** The left-to-right scan shared by [re.sub] and [str.replace]: [m] tells,
    at a position, the length of the match that starts there and the text
    that replaces it. [skip] counts the characters of the current match that
    are still to be passed over, [limit] the replacements still allowed
    ([None]: no bound). *)
Definition dec_limit (limit : option nat) : option nat :=
  match limit with
  | Some n => Some (pred n)
  | None => None
  end.

Definition exhausted (limit : option nat) : bool :=
  match limit with
  | Some 0 => true
  | _ => false
  end.

Fixpoint scan (m : str -> option (nat * str)) (limit : option nat)
  (skip : nat) (s : str) : str :=
  match s with
  | [] =>
      if exhausted limit then []
      else match m [] with
           | Some (_, new) => new
           | None => []
           end
  | c :: s' =>
      match skip with
      | S n => scan m limit n s'
      | 0 =>
          if exhausted limit then s
          else match m s with
               | Some (S n, new) => new ++ scan m (dec_limit limit) n s'
               | Some (0, new) => new ++ c :: scan m (dec_limit limit) 0 s'
               | None => c :: scan m limit 0 s'
               end
      end
  end.

Definition re_match (r : regex) (repl : template) (s : str)
  : option (nat * str) :=
  match match_at r s with
  | Some (n, g) => Some (n, expand repl g)
  | None => None
  end.

(** [re.sub(r, repl, s, count)]; [count = 0] replaces every match. *)
Definition sub (r : regex) (repl : template) (s : str) (count : nat) : str :=
  scan (re_match r repl) (match count with 0 => None | _ => Some count end) 0 s.

Definition lit_match (old new s : str) : option (nat * str) :=
  match strip_prefix old s with
  | Some _ => Some (length old, new)
  | None => None
  end.

(** [s.replace(old, new)] *)
Definition replace (old new s : str) : str :=
  scan (lit_match old new) None 0 s.

(** [re.search(r, s) is not None] *)
Fixpoint search (r : regex) (s : str) : bool :=
  match match_at r s with
  | Some _ => true
  | None => match s with [] => false | _ :: s' => search r s' end
  end.

End Re.

(* ================================================================= *)
(** ** ElementTree elements *)

Module ET.

(** An [Element]: qualified tag ([{uri}local]), attributes, the text before
    the first child, the text after the end tag, and the children. Absent
    text is [None], as in ElementTree. *)
#[local] Unset Elimination Schemes.
Inductive elem :=
| Element (tag : str) (attrib : list (str * str))
          (text tail : option str) (children : list elem).
#[local] Set Elimination Schemes.

Definition tag (e : elem) : str :=
  match e with Element t _ _ _ _ => t end.
Definition text (e : elem) : option str :=
  match e with Element _ _ x _ _ => x end.
Definition tail (e : elem) : option str :=
  match e with Element _ _ _ x _ => x end.
Definition children (e : elem) : list elem :=
  match e with Element _ _ _ _ cs => cs end.

(** [elem.iter()]: the element and its descendants in document order. *)
Fixpoint iter (e : elem) : list elem :=
  match e with
  | Element _ _ _ _ cs => e :: flat_map iter cs
  end.

(** What the path [.//] ranges over: every descendant, not the element. *)
Definition descendants (e : elem) : list elem :=
  flat_map iter (children e).

Definition has_tag (t : str) (e : elem) : bool := str_eqb (tag e) t.

(** [e.findall('.//t')] *)
Definition findall (t : str) (e : elem) : list elem :=
  filter (has_tag t) (descendants e).

(** [e.find('.//t')] *)
Definition find (t : str) (e : elem) : option elem :=
  hd_error (findall t e).

End ET.

(* ================================================================= *)
(** ** What the script takes from the Python runtime *)

(** [datetime]: microseconds of the wall clock since the epoch of the
    proleptic calendar, and the UTC offset in microseconds of an aware
    value ([None] for a naive one). *)
Record datetime := { wall : Z; utcoffset : option Z }.

(** [a - b] on [datetime]s, as a [timedelta] in microseconds. Mixing naive
    and aware operands raises [TypeError]. *)
Definition datetime_sub (a b : datetime) : result Z :=
  match utcoffset a, utcoffset b with
  | None, None => Ok (wall a - wall b)%Z
  | Some oa, Some ob => Ok ((wall a - oa) - (wall b - ob))%Z
  | _, _ => Raise TypeError
  end.

(** The library functions whose code is not part of the repository. Every
    theorem below holds for any implementation of this interface. *)
Class Runtime := {
  pyfloat : Type;
  (** [float(s)] on a [str]; [None] stands for [ValueError] *)
  float_parse : str -> option pyfloat;
  (** conversion of an [int] operand in mixed arithmetic *)
  float_of_Z : Z -> pyfloat;
  float_sub : pyfloat -> pyfloat -> pyfloat;
  (** the quotient, consulted for a non-zero divisor only *)
  float_div : pyfloat -> pyfloat -> pyfloat;
  (** [x == 0] *)
  float_is_zero : pyfloat -> bool;
  (** [str(x)] *)
  float_repr : pyfloat -> str;
  (** [timedelta(microseconds=us).total_seconds()] *)
  total_seconds : Z -> pyfloat;
  (** the one fact about floats that is used: no time is zero seconds *)
  total_seconds_0 : float_is_zero (total_seconds 0) = true;
  (** [datetime.fromisoformat]; [None] stands for [ValueError] *)
  fromisoformat : str -> option datetime;
  (** [ET.fromstring]; [None] stands for [ParseError] *)
  ET_fromstring : str -> option ET.elem;
  (** [ET.tostring(root, encoding='unicode')] *)
  ET_tostring : ET.elem -> str
}.

(* ================================================================= *)
(** ** The converter *)

Module Convert.

Definition tcx (name : String.string) : str :=
  lit "{http://www.garmin.com/xmlschemas/TrainingCenterDatabase/v2}" ++ lit name.

(** Keys of the speed lookup: the text of a Time element, [None] when the
    element is empty. *)
Definition key := option str.

Definition key_eqb (a b : key) : bool :=
  match a, b with
  | None, None => true
  | Some x, Some y => str_eqb x y
  | _, _ => false
  end.

(** The variables the trackpoint loop updates. *)
Record loop_state (F : Type) := {
  speed_data : dict key (num F);
  prev_distance : num F;
  prev_time : option str
}.
Arguments speed_data {F} _.
Arguments prev_distance {F} _.
Arguments prev_time {F} _.

Section WithRuntime.
Context {R : Runtime}.

Local Abbreviation num := (Py.num pyfloat).
Local Abbreviation loop_state := (Convert.loop_state pyfloat).

Definition to_float (a : num) : pyfloat :=
  match a with
  | Int z => float_of_Z z
  | Float x => x
  end.

Definition num_is_zero (a : num) : bool :=
  match a with
  | Int z => Z.eqb z 0
  | Float x => float_is_zero x
  end.

(** [a - b] *)
Definition num_sub (a b : num) : num :=
  match a, b with
  | Int x, Int y => Int (x - y)
  | _, _ => Float (float_sub (to_float a) (to_float b))
  end.

(** [a / b]: true division raises on a zero divisor. *)
Definition truediv (a b : num) : result num :=
  if num_is_zero b then Raise ZeroDivisionError
  else Ok (Float (float_div (to_float a) (to_float b))).

Definition Z_repr (z : Z) : str :=
  String.list_ascii_of_string (DecimalString.NilZero.string_of_int (Z.to_int z)).

(** [f'{a}'] *)
Definition format_num (a : num) : str :=
  match a with
  | Int z => Z_repr z
  | Float x => float_repr x
  end.

(** *** [parse_time] *)

Definition parse_time (time_str : option str) : result datetime :=
  match time_str with
  | None => Raise AttributeError
  | Some s =>
      of_option ValueError
        (fromisoformat (Re.replace (lit "Z") (lit "+00:00") s))
  end.

(** *** [calculate_speed] *)

Definition calculate_speed (prev_distance curr_distance : num)
  (prev_time curr_time : option str) : result num :=
  match prev_time with
  | None => Ok (Int 0)
  | Some _ =>
      c <- parse_time curr_time;;
      p <- parse_time prev_time;;
      d <- datetime_sub c p;;
      let time_delta := Float (total_seconds d) in
      if num_is_zero time_delta then Ok (Int 0)
      else
        let distance_delta := num_sub curr_distance prev_distance in
        truediv distance_delta time_delta
  end.

(** *** The speed lookup of [convert_tcx_string] *)

Definition speed_table := dict key num.

(** [float(dist_elem.text)] *)
Definition float_of_text (t : option str) : result num :=
  match t with
  | None => Raise TypeError
  | Some s =>
      match float_parse s with
      | Some x => Ok (Float x)
      | None => Raise ValueError
      end
  end.

(** Body of [for i, tp in enumerate(trackpoints)]. *)
Definition trackpoint_step (st : loop_state) (tp : ET.elem)
  : result loop_state :=
  match ET.find (tcx "Time") tp, ET.find (tcx "DistanceMeters") tp with
  | Some time_elem, Some dist_elem =>
      let curr_time := ET.text time_elem in
      curr_distance <- float_of_text (ET.text dist_elem);;
      speed <- calculate_speed (prev_distance st) curr_distance
                 (prev_time st) curr_time;;
      Ok {| speed_data := dict_set key_eqb (speed_data st) curr_time speed;
            prev_distance := curr_distance;
            prev_time := curr_time |}
  | _, _ => Ok st
  end.

Definition track_start (sd : speed_table) : loop_state :=
  {| speed_data := sd; prev_distance := Int 0; prev_time := None |}.

(** One track: the trackpoint loop from a fresh predecessor. *)
Definition track_speeds (sd : speed_table) (track : ET.elem)
  : result speed_table :=
  st <- for_each trackpoint_step (ET.findall (tcx "Trackpoint") track)
          (track_start sd);;
  Ok (speed_data st).

(** Body of [for lap in activity.findall(...)]. *)
Definition lap_step (sd : speed_table) (lap : ET.elem) : result speed_table :=
  match ET.find (tcx "Track") lap with
  | None => Ok sd
  | Some track => track_speeds sd track
  end.

Definition activity_step (sd : speed_table) (activity : ET.elem)
  : result speed_table :=
  for_each lap_step (ET.findall (tcx "Lap") activity) sd.

Definition build_speed_data (tree : ET.elem) : result speed_table :=
  for_each activity_step (ET.findall (tcx "Activity") tree) [].

(** *** The rewriting rules of [convert_tcx_string] *)

Definition dq : str := ["034"%char].

Fixpoint cat_all (l : list Re.regex) : Re.regex :=
  match l with
  | [] => Re.Lit []
  | [r] => r
  | r :: l' => Re.Cat r (cat_all l')
  end.

(** [<Creator>.*?</Creator>], DOTALL *)
Definition creator_re : Re.regex :=
  cat_all [Re.Lit (lit "<Creator>"); Re.Rep false Re.any;
           Re.Lit (lit "</Creator>")].

(** [<Extensions>\s*<TPX[^>]*>.*?</TPX>\s*</Extensions>\s*(?=<Track>)],
    DOTALL *)
Definition lap_extensions_re : Re.regex :=
  cat_all [Re.Lit (lit "<Extensions>"); Re.Rep true Re.space;
           Re.Lit (lit "<TPX"); Re.Rep true Re.not_gt; Re.Lit (lit ">");
           Re.Rep false Re.any; Re.Lit (lit "</TPX>"); Re.Rep true Re.space;
           Re.Lit (lit "</Extensions>"); Re.Rep true Re.space;
           Re.Ahead (Re.Lit (lit "<Track>"))].

(** The opening tag with its inline namespace declaration. *)
Definition tpx_open : str :=
  lit "<TPX xmlns=" ++ dq
  ++ lit "http://www.garmin.com/xmlschemas/ActivityExtension/v2" ++ dq
  ++ lit ">".

(** [<Resistance>.*?</Resistance>], no flag: [.] stops at a newline *)
Definition resistance_re : Re.regex :=
  cat_all [Re.Lit (lit "<Resistance>"); Re.Rep false Re.dot;
           Re.Lit (lit "</Resistance>")].

(** [<name>(\d+)\.0</name>] and its replacement [<name>\1</name>] *)
Definition dot0_re (name : String.string) : Re.regex :=
  cat_all [Re.Lit (lit "<" ++ lit name ++ lit ">");
           Re.Group 1 (Re.Plus Re.digit);
           Re.Lit (lit ".0</" ++ lit name ++ lit ">")].

Definition dot0_repl (name : String.string) : Re.template :=
  [Re.TLit (lit "<" ++ lit name ++ lit ">"); Re.TGroup 1;
   Re.TLit (lit "</" ++ lit name ++ lit ">")].

Definition remove_creator (content : str) : str :=
  Re.sub creator_re [] content 0.

Definition remove_lap_extensions (content : str) : str :=
  Re.sub lap_extensions_re [] content 0.

(** Lines 159-173: the TPX, Speed and Watts tags get the [ns3] prefix. *)
Definition fix_namespaces (content : str) : str :=
  let content := Re.sub (Re.Lit tpx_open) [Re.TLit (lit "<ns3:TPX>")] content 0 in
  let content := Re.replace (lit "</TPX>") (lit "</ns3:TPX>") content in
  let content := Re.replace (lit "<Speed>") (lit "<ns3:Speed>") content in
  let content := Re.replace (lit "</Speed>") (lit "</ns3:Speed>") content in
  let content := Re.replace (lit "<Watts>") (lit "<ns3:Watts>") content in
  let content := Re.replace (lit "</Watts>") (lit "</ns3:Watts>") content in
  content.

Definition remove_resistance (content : str) : str :=
  Re.sub resistance_re [] content 0.

(** Lines 148-176: the removals and the namespace fix. *)
Definition removal_rules (content : str) : str :=
  remove_resistance
    (fix_namespaces (remove_lap_extensions (remove_creator content))).

(** Lines 178-185: the [.0] clean-up of Value, Cadence and Watts. *)
Definition normalize_numbers (content : str) : str :=
  let content := Re.sub (dot0_re "Value") (dot0_repl "Value") content 0 in
  let content := Re.sub (dot0_re "Cadence") (dot0_repl "Cadence") content 0 in
  let content :=
    Re.sub (dot0_re "ns3:Watts") (dot0_repl "ns3:Watts") content 0 in
  content.

Definition rewrite_rules (content : str) : str :=
  normalize_numbers (removal_rules content).

(** [(<Time>T</Time>.*?<ns3:Speed>)[\d.]+(<)], DOTALL, with [T] escaped *)
Definition speed_re (time_str : str) : Re.regex :=
  cat_all [Re.Group 1
             (cat_all [Re.Lit (lit "<Time>" ++ time_str ++ lit "</Time>");
                       Re.Rep false Re.any; Re.Lit (lit "<ns3:Speed>")]);
           Re.Plus Re.digit_or_dot;
           Re.Group 2 (Re.Lit (lit "<"))].

Definition speed_repl (speed : num) : Re.template :=
  [Re.TGroup 1; Re.TLit (format_num speed); Re.TGroup 2].

(** Body of [for time_str, speed in speed_data.items()]. [re.escape] of a
    key that is [None] raises [TypeError]. *)
Definition inject_step (content : str) (item : key * num) : result str :=
  match fst item with
  | None => Raise TypeError
  | Some time_str =>
      Ok (Re.sub (speed_re time_str) (speed_repl (snd item)) content 1)
  end.

Definition inject_speeds (sd : speed_table) (content : str) : result str :=
  for_each inject_step sd content.

(** *** [indent_xml] *)

(** [not t or not t.strip()] *)
Definition blank (t : option str) : bool :=
  match t with
  | None => true
  | Some s => forallb Re.space s
  end.

Definition indent_of (level : nat) : str :=
  lit (String.String "010" "") ++ concat (repeat (lit "  ") level).

Definition set_tail (t : str) (e : ET.elem) : ET.elem :=
  match e with
  | ET.Element tag att text _ cs => ET.Element tag att text (Some t) cs
  end.

(** The assignment to the tail of the last child after the loop. *)
Fixpoint close_last (indent : str) (cs : list ET.elem) : list ET.elem :=
  match cs with
  | [] => []
  | [c] => [if blank (ET.tail c) then set_tail indent c else c]
  | c :: cs' => c :: close_last indent cs'
  end.

Fixpoint indent_xml (e : ET.elem) (level : nat) : ET.elem :=
  match e with
  | ET.Element tag att text tail cs =>
      let indent := indent_of level in
      match cs with
      | [] =>
          ET.Element tag att text
            (if negb (Nat.eqb level 0) && blank tail then Some indent
             else tail) []
      | _ :: _ =>
          ET.Element tag att
            (if blank text then Some (indent ++ lit "  ") else text)
            (if blank tail then Some indent else tail)
            (close_last indent (map (fun c => indent_xml c (S level)) cs))
      end
  end.

(** *** [convert_tcx_string] *)

Definition xml_declaration : str :=
  lit "<?xml version=" ++ dq ++ lit "1.0" ++ dq ++ lit " encoding=" ++ dq
  ++ lit "UTF-8" ++ dq ++ lit "?>" ++ lit (String.String "010" "").

(** The [try] block and its [except Exception] handler: what is written to
    the output file. *)
Definition serialize (content : str) : str :=
  match ET_fromstring content with
  | Some root => xml_declaration ++ ET_tostring (indent_xml root 0)
  | None => content
  end.

(** Everything after the first parse. *)
Definition convert_tree (content : str) (tree : ET.elem) : result str :=
  sd <- build_speed_data tree;;
  content <- inject_speeds sd (rewrite_rules content);;
  Ok (serialize content).

(** The conversion, from the text of the input file to the text written to
    the output file; [Raise] when the call ends in an exception. *)
Definition convert_tcx_string (content : str) : result str :=
  tree <- of_option ParseError (ET_fromstring content);;
  convert_tree content tree.

End WithRuntime.
End Convert.

(* ================================================================= *)
(** ** A concrete runtime for examples *)

(** The examples are evaluated on a runtime that implements the library
    functions on the inputs the examples use: floats are exact rationals
    written as plain decimals, timestamps have the shape
    [YYYY-MM-DDTHH:MM:SS[.ffffff][+HH:MM]], and documents are elements with
    attributes, namespace declarations and character data. *)
Module Demo.

Local Open Scope Z_scope.

Definition digit_val (c : ascii) : Z := Z.of_nat (nat_of_ascii c) - 48.

(** Value of a run of decimal digits. *)
Definition digits_val (ds : str) : Z :=
  fold_left (fun acc c => acc * 10 + digit_val c)%Z ds 0%Z.

Definition strip (s : str) : str :=
  rev (snd (span Re.space (rev (snd (span Re.space s))))).

(** Unsigned decimal: digits, optionally a point and more digits, with at
    least one digit. *)
Definition parse_unsigned (s : str) : option Q :=
  let (ip, rest) := span Re.digit s in
  match rest with
  | [] => match ip with [] => None | _ => Some (inject_Z (digits_val ip)) end
  | c :: rest' =>
      if Ascii.eqb c "." then
        let (fp, rest'') := span Re.digit rest' in
        match rest'', ip ++ fp with
        | [], _ :: _ =>
            Some (Qred (Qmake (digits_val (ip ++ fp))
                          (Z.to_pos (10 ^ Z.of_nat (length fp)))))
        | _, _ => None
        end
      else None
  end.

Definition parse_decimal (s : str) : option Q :=
  match strip s with
  | c :: s' =>
      if Ascii.eqb c "-" then option_map Qopp (parse_unsigned s')
      else if Ascii.eqb c "+" then parse_unsigned s'
      else parse_unsigned (c :: s')
  | [] => None
  end.

(** Decimal digits of the fraction [r / d], at most [n] of them. *)
Fixpoint frac_digits (n : nat) (r d : Z) : str :=
  match n with
  | O => []
  | S n' =>
      if Z.eqb r 0 then []
      else ascii_of_nat (Z.to_nat (48 + r * 10 / d))
             :: frac_digits n' ((r * 10) mod d) d
  end.

Definition repr_decimal (q : Q) : str :=
  let n := Z.abs (Qnum q) in
  let d := Zpos (Qden q) in
  let frac := frac_digits 17 (n mod d) d in
  (if Z.ltb (Qnum q) 0 then lit "-" else [])
  ++ Convert.Z_repr (n / d) ++ lit "."
  ++ match frac with [] => lit "0" | _ => frac end.

(** Days from 1970-01-01 to a date of the proleptic Gregorian calendar. *)
Definition days_from_civil (y m d : Z) : Z :=
  let y' := if Z.leb m 2 then y - 1 else y in
  let era := y' / 400 in
  let yoe := y' - era * 400 in
  let doy := (153 * (if Z.leb m 2 then m + 9 else m - 3) + 2) / 5 + d - 1 in
  let doe := yoe * 365 + yoe / 4 - yoe / 100 + doy in
  era * 146097 + doe - 719468.

Definition days_in_month (y m : Z) : Z :=
  if Z.eqb m 2 then
    if (Z.eqb (y mod 4) 0 && negb (Z.eqb (y mod 100) 0)) || Z.eqb (y mod 400) 0
    then 29 else 28
  else if Z.eqb m 4 || Z.eqb m 6 || Z.eqb m 9 || Z.eqb m 11 then 30 else 31.

(** [n] digits, then the rest. *)
Definition take_digits (n : nat) (s : str) : option (Z * str) :=
  let ds := firstn n s in
  if Nat.eqb (length ds) n && forallb Re.digit ds
  then Some (digits_val ds, skipn n s) else None.

Definition expect (c : ascii) (s : str) : option str :=
  match s with
  | x :: s' => if Ascii.eqb x c then Some s' else None
  | [] => None
  end.

Definition obind {A B} (o : option A) (f : A -> option B) : option B :=
  match o with Some a => f a | None => None end.

(** [+HH:MM] or [-HH:MM], in microseconds. *)
Definition parse_offset (s : str) : option Z :=
  match s with
  | sign :: s1 =>
      if Ascii.eqb sign "+" || Ascii.eqb sign "-" then
        obind (take_digits 2 s1) (fun '(h, s2) =>
        obind (expect ":" s2) (fun s3 =>
        obind (take_digits 2 s3) (fun '(m, s4) =>
        match s4 with
        | [] =>
            if Z.ltb h 24 && Z.ltb m 60 then
              let us := ((h * 3600 + m * 60) * 1000000)%Z in
              Some (if Ascii.eqb sign "-" then (- us)%Z else us)
            else None
        | _ => None
        end)))
      else None
  | [] => None
  end.

(** Fraction of a second: [.fff] or [.ffffff]. *)
Definition parse_fraction (s : str) : option (Z * str) :=
  match s with
  | c :: s' =>
      if Ascii.eqb c "." then
        match take_digits 6 s' with
        | Some r => Some r
        | None =>
            obind (take_digits 3 s') (fun '(ms, r) => Some (ms * 1000, r)%Z)
        end
      else Some (0%Z, s)
  | [] => Some (0%Z, s)
  end.

Definition parse_isoformat (s : str) : option datetime :=
  obind (take_digits 4 s) (fun '(y, s) =>
  obind (expect "-" s) (fun s =>
  obind (take_digits 2 s) (fun '(mo, s) =>
  obind (expect "-" s) (fun s =>
  obind (take_digits 2 s) (fun '(d, s) =>
  obind (expect "T" s) (fun s =>
  obind (take_digits 2 s) (fun '(h, s) =>
  obind (expect ":" s) (fun s =>
  obind (take_digits 2 s) (fun '(mi, s) =>
  obind (expect ":" s) (fun s =>
  obind (take_digits 2 s) (fun '(sec, s) =>
  obind (parse_fraction s) (fun '(us, s) =>
  if (Z.leb 1 y && Z.leb 1 mo && Z.leb mo 12 && Z.leb 1 d
      && Z.leb d (days_in_month y mo)
      && Z.ltb h 24 && Z.ltb mi 60 && Z.ltb sec 60)%bool
  then
    let w := (((days_from_civil y mo d * 86400 + h * 3600 + mi * 60 + sec)
               * 1000000) + us)%Z in
    match s with
    | [] => Some {| wall := w; utcoffset := None |}
    | _ => obind (parse_offset s) (fun off =>
             Some {| wall := w; utcoffset := Some off |})
    end
  else None)))))))))))).

(** *** A parser for the XML subset of the examples

    Elements, attributes, namespace declarations and character data; a
    processing instruction is skipped. Entity references, comments and
    CDATA sections are not covered. *)

(** The document cut into markup ([true], the text between [<] and [>]) and
    character data ([false]). *)
Definition text_chunk (acc : str) (l : list (bool * str)) : list (bool * str) :=
  match acc with
  | [] => l
  | _ => (false, rev acc) :: l
  end.

Definition is_quote (c : ascii) : bool :=
  Ascii.eqb c "034" || Ascii.eqb c "'".

Fixpoint chunks (s : str) (in_tag : bool) (q : option ascii) (acc : str)
  : option (list (bool * str)) :=
  match s with
  | [] => if in_tag then None else Some (text_chunk acc [])
  | c :: s' =>
      if in_tag then
        match q with
        | Some qc =>
            chunks s' true (if Ascii.eqb c qc then None else q) (c :: acc)
        | None =>
            if Ascii.eqb c ">" then
              option_map (cons (true, rev acc)) (chunks s' false None [])
            else if Ascii.eqb c "<" then None
            else chunks s' true (if is_quote c then Some c else None)
                   (c :: acc)
        end
      else if Ascii.eqb c "<" then
        option_map (text_chunk acc) (chunks s' true None [])
      else if Ascii.eqb c "&" then None
      else chunks s' false None (c :: acc)
  end.

Definition name_char (c : ascii) : bool :=
  ascii_in 97 122 c || ascii_in 65 90 c || ascii_in 48 57 c
  || Ascii.eqb c "_" || Ascii.eqb c "-" || Ascii.eqb c "." || Ascii.eqb c ":".

Definition is_name (s : str) : bool :=
  match s with
  | [] => false
  | _ => forallb name_char s
  end.

Inductive attr_state :=
| ASpace
| AName (acc : str)
| AEq (name : str)
| AValue (name : str) (q : ascii) (acc : str)
| ASlash.

(** The attributes of a start tag, and whether it ends in [/]. *)
Fixpoint attributes (s : str) (st : attr_state) (out : list (str * str))
  : option (list (str * str) * bool) :=
  match s with
  | [] =>
      match st with
      | ASpace => Some (rev out, false)
      | ASlash => Some (rev out, true)
      | _ => None
      end
  | c :: s' =>
      match st with
      | ASpace =>
          if Re.space c then attributes s' ASpace out
          else if Ascii.eqb c "/" then attributes s' ASlash out
          else if name_char c then attributes s' (AName [c]) out
          else None
      | AName acc =>
          if Ascii.eqb c "=" then attributes s' (AEq (rev acc)) out
          else if name_char c then attributes s' (AName (c :: acc)) out
          else None
      | AEq name =>
          if is_quote c then attributes s' (AValue name c []) out else None
      | AValue name q acc =>
          if Ascii.eqb c q then attributes s' ASpace ((name, rev acc) :: out)
          else if Ascii.eqb c "<" then None
          else attributes s' (AValue name q (c :: acc)) out
      | ASlash => None
      end
  end.

Inductive token :=
| TStart (name : str) (att : list (str * str)) (empty : bool)
| TEnd (name : str)
| TText (s : str)
| TSkip.

Definition tag_token (t : str) : option token :=
  match t with
  | c :: t' =>
      if Ascii.eqb c "?" then Some TSkip
      else if Ascii.eqb c "/" then
        let name := fst (span name_char t') in
        if is_name name && forallb Re.space (snd (span name_char t'))
        then Some (TEnd name) else None
      else
        let (name, rest) := span name_char t in
        if is_name name then
          obind (attributes rest ASpace [])
            (fun '(att, empty) => Some (TStart name att empty))
        else None
  | [] => None
  end.

Fixpoint tokens (l : list (bool * str)) : option (list token) :=
  match l with
  | [] => Some []
  | (markup, t) :: l' =>
      obind (if markup then tag_token t else Some (TText t)) (fun tok =>
      obind (tokens l') (fun toks => Some (tok :: toks)))
  end.

(** Namespace bindings in scope: prefix (empty for the default) and URI. *)
Definition bindings := list (str * str).

Fixpoint lookup (k : str) (b : bindings) : option str :=
  match b with
  | [] => None
  | (k', v) :: b' => if str_eqb k' k then Some v else lookup k b'
  end.

Definition split_colon (name : str) : option str * str :=
  let (a, b) := span (fun c => negb (Ascii.eqb c ":")) name in
  match b with
  | [] => (None, a)
  | _ :: local => (Some a, local)
  end.

Definition declared (att : list (str * str)) : bindings :=
  flat_map (fun '(k, v) =>
    match split_colon k with
    | (None, n) => if str_eqb n (lit "xmlns") then [([], v)] else []
    | (Some p, n) => if str_eqb p (lit "xmlns") then [(n, v)] else []
    end) att.

Definition is_declaration (k : str) : bool :=
  match split_colon k with
  | (None, n) => str_eqb n (lit "xmlns")
  | (Some p, _) => str_eqb p (lit "xmlns")
  end.

Definition qualify (uri local : str) : str :=
  lit "{" ++ uri ++ lit "}" ++ local.

Definition element_name (b : bindings) (name : str) : option str :=
  match split_colon name with
  | (None, n) =>
      match lookup [] b with
      | Some (c :: uri) => Some (qualify (c :: uri) n)
      | _ => Some n
      end
  | (Some p, n) => option_map (fun uri => qualify uri n) (lookup p b)
  end.

Definition attribute_name (b : bindings) (name : str) : option str :=
  match split_colon name with
  | (None, n) => Some n
  | (Some p, n) => option_map (fun uri => qualify uri n) (lookup p b)
  end.

Fixpoint attribute_names (b : bindings) (att : list (str * str))
  : option (list (str * str)) :=
  match att with
  | [] => Some []
  | (k, v) :: att' =>
      if is_declaration k then attribute_names b att'
      else
        obind (attribute_name b k) (fun k' =>
        obind (attribute_names b att') (fun r => Some ((k', v) :: r)))
  end.

(** An element whose end tag has not been read yet. *)
Record frame := {
  f_name : str;
  f_tag : str;
  f_att : list (str * str);
  f_ns : bindings;
  f_text : option str;
  f_kids : list ET.elem
}.

Definition add_text (o : option str) (t : str) : option str :=
  match o with
  | None => Some t
  | Some x => Some (x ++ t)
  end.

Definition add_tail (t : str) (e : ET.elem) : ET.elem :=
  match e with
  | ET.Element tag att text tail cs =>
      ET.Element tag att text (add_text tail t) cs
  end.

Definition frame_text (t : str) (f : frame) : frame :=
  match f_kids f with
  | [] =>
      {| f_name := f_name f; f_tag := f_tag f; f_att := f_att f;
         f_ns := f_ns f; f_text := add_text (f_text f) t; f_kids := [] |}
  | k :: ks =>
      {| f_name := f_name f; f_tag := f_tag f; f_att := f_att f;
         f_ns := f_ns f; f_text := f_text f; f_kids := add_tail t k :: ks |}
  end.

Definition frame_child (e : ET.elem) (f : frame) : frame :=
  {| f_name := f_name f; f_tag := f_tag f; f_att := f_att f;
     f_ns := f_ns f; f_text := f_text f; f_kids := e :: f_kids f |}.

Definition close_frame (f : frame) : ET.elem :=
  ET.Element (f_tag f) (f_att f) (f_text f) None (rev (f_kids f)).

Definition open_frame (b : bindings) (name : str) (att : list (str * str))
  : option frame :=
  let b' := declared att ++ b in
  obind (element_name b' name) (fun tag =>
  obind (attribute_names b' att) (fun att' =>
  Some {| f_name := name; f_tag := tag; f_att := att'; f_ns := b';
          f_text := None; f_kids := [] |})).

(** Attach a finished element to its parent, or make it the root. *)
Definition finish (e : ET.elem) (stack : list frame) (root : option ET.elem)
  : option (list frame * option ET.elem) :=
  match stack with
  | f :: stack' => Some (frame_child e f :: stack', root)
  | [] => match root with None => Some ([], Some e) | Some _ => None end
  end.

Fixpoint build (toks : list token) (stack : list frame)
  (root : option ET.elem) : option ET.elem :=
  match toks with
  | [] => match stack with [] => root | _ => None end
  | tok :: toks' =>
      match tok with
      | TSkip => build toks' stack root
      | TText t =>
          match stack with
          | f :: stack' => build toks' (frame_text t f :: stack') root
          | [] => if forallb Re.space t then build toks' [] root else None
          end
      | TStart name att empty =>
          let b := match stack with f :: _ => f_ns f | [] => [] end in
          obind (open_frame b name att) (fun f =>
            if empty then
              obind (finish (close_frame f) stack root)
                (fun '(stack', root') => build toks' stack' root')
            else build toks' (f :: stack) root)
      | TEnd name =>
          match stack with
          | f :: stack' =>
              if str_eqb (f_name f) name then
                obind (finish (close_frame f) stack' root)
                  (fun '(stack'', root') => build toks' stack'' root')
              else None
          | [] => None
          end
      end
  end.

Definition parse_document (s : str) : option ET.elem :=
  obind (chunks s false None []) (fun cs =>
  obind (tokens cs) (fun toks => build toks [] None)).

(** *** The serialiser

    [ET.tostring]: every namespace URI gets a prefix (a well-known one, or
    [ns0], [ns1], ... in order of first use), declared on the root. *)

Definition well_known : bindings :=
  [(lit "http://www.w3.org/XML/1998/namespace", lit "xml");
   (lit "http://www.w3.org/1999/xhtml", lit "html");
   (lit "http://www.w3.org/1999/02/22-rdf-syntax-ns#", lit "rdf");
   (lit "http://schemas.xmlsoap.org/wsdl/", lit "wsdl");
   (lit "http://www.w3.org/2001/XMLSchema", lit "xs");
   (lit "http://www.w3.org/2001/XMLSchema-instance", lit "xsi");
   (lit "http://purl.org/dc/elements/1.1/", lit "dc")].

(** [{uri}local] split into its two parts. *)
Definition split_qname (q : str) : option (str * str) :=
  match q with
  | c :: q' =>
      if Ascii.eqb c "{" then
        let (rlocal, ruri) := span (fun c => negb (Ascii.eqb c "}")) (rev q') in
        match ruri with
        | _ :: ruri' => Some (rev ruri', rev rlocal)
        | [] => None
        end
      else None
  | [] => None
  end.

(** [add_qname]: the table from URI to prefix after one more name. *)
Definition add_qname (ns : bindings) (q : str) : bindings :=
  match split_qname q with
  | None => ns
  | Some (uri, _) =>
      match lookup uri ns with
      | Some _ => ns
      | None =>
          let prefix :=
            match lookup uri well_known with
            | Some p => p
            | None => lit "ns" ++ Convert.Z_repr (Z.of_nat (length ns))
            end in
          if str_eqb prefix (lit "xml") then ns else ns ++ [(uri, prefix)]
      end
  end.

Definition element_qnames (e : ET.elem) : list str :=
  match e with
  | ET.Element tag att _ _ _ => tag :: map fst att
  end.

Definition namespaces (root : ET.elem) : bindings :=
  fold_left add_qname (flat_map element_qnames (ET.iter root)) [].

Definition qname (ns : bindings) (q : str) : str :=
  match split_qname q with
  | None => q
  | Some (uri, local) =>
      match lookup uri (ns ++ well_known) with
      | Some p => p ++ lit ":" ++ local
      | None => local
      end
  end.

Definition escape (attrib : bool) (s : str) : str :=
  flat_map (fun c =>
    if Ascii.eqb c "&" then lit "&amp;"
    else if Ascii.eqb c "<" then lit "&lt;"
    else if Ascii.eqb c ">" then lit "&gt;"
    else if attrib && Ascii.eqb c "034" then lit "&quot;"
    else if attrib && Ascii.eqb c "013" then lit "&#13;"
    else if attrib && Ascii.eqb c "010" then lit "&#10;"
    else if attrib && Ascii.eqb c "009" then lit "&#09;"
    else [c]) s.

Fixpoint str_ltb (a b : str) : bool :=
  match a, b with
  | _, [] => false
  | [], _ :: _ => true
  | x :: a', y :: b' =>
      (nat_of_ascii x <? nat_of_ascii y)%nat
      || (Ascii.eqb x y && str_ltb a' b')
  end.

Fixpoint insert_by_prefix (d : str * str) (l : bindings) : bindings :=
  match l with
  | [] => [d]
  | d' :: l' =>
      if str_ltb (snd d) (snd d') then d :: l
      else d' :: insert_by_prefix d l'
  end.

Definition sort_by_prefix (l : bindings) : bindings :=
  fold_right insert_by_prefix [] l.

Definition write_attributes (ns : bindings) (att : list (str * str)) : str :=
  flat_map (fun '(k, v) =>
    lit " " ++ qname ns k ++ lit "=" ++ Convert.dq ++ escape true v
    ++ Convert.dq) att.

Definition write_declarations (ns : bindings) : str :=
  flat_map (fun '(uri, prefix) =>
    lit " xmlns:" ++ prefix ++ lit "=" ++ Convert.dq ++ escape true uri
    ++ Convert.dq) (sort_by_prefix ns).

Definition write_text (t : option str) : str :=
  match t with
  | Some s => escape false s
  | None => []
  end.

Definition nonempty (t : option str) : bool :=
  match t with
  | Some (_ :: _) => true
  | _ => false
  end.

Fixpoint serialize_xml (ns : bindings) (decls : str) (e : ET.elem) : str :=
  match e with
  | ET.Element tag att text tail cs =>
      lit "<" ++ qname ns tag ++ decls ++ write_attributes ns att
      ++ (if nonempty text || negb (Nat.eqb (length cs) 0) then
            lit ">" ++ write_text text
            ++ flat_map (serialize_xml ns []) cs
            ++ lit "</" ++ qname ns tag ++ lit ">"
          else lit " />")
      ++ write_text tail
  end.

Definition write_document (root : ET.elem) : str :=
  let ns := namespaces root in
  serialize_xml ns (write_declarations ns) root.

(** The runtime of the examples. *)
#[export] Instance runtime : Runtime := {|
  pyfloat := Q;
  float_parse := parse_decimal;
  float_of_Z := inject_Z;
  float_sub := fun a b => Qred (a - b);
  float_div := fun a b => Qred (a / b);
  float_is_zero := fun a => Z.eqb (Qnum a) 0;
  float_repr := repr_decimal;
  total_seconds := fun us => Qred (Qmake us 1000000);
  total_seconds_0 := eq_refl;
  fromisoformat := parse_isoformat;
  ET_fromstring := parse_document;
  ET_tostring := write_document
|}.

End Demo.

(* ================================================================= *)
(** ** Vocabulary of the properties *)

Import Convert.

(** The key under which a trackpoint is entered in the lookup: the text of
    its Time element, when it has both a Time and a DistanceMeters element
    (the samples the loop does not skip). *)
Definition sample_key (tp : ET.elem) : option key :=
  match ET.find (tcx "Time") tp, ET.find (tcx "DistanceMeters") tp with
  | Some time_elem, Some _ => Some (ET.text time_elem)
  | _, _ => None
  end.

(** The tracks the loops reach, in the order they reach them: for every
    Activity below the root and every Lap below it, the first Track below
    that Lap. *)
Definition first_track (lap : ET.elem) : list ET.elem :=
  match ET.find (tcx "Track") lap with
  | Some track => [track]
  | None => []
  end.

Definition processed_tracks (tree : ET.elem) : list ET.elem :=
  flat_map (fun activity => flat_map first_track (ET.findall (tcx "Lap") activity))
    (ET.findall (tcx "Activity") tree).

(** No match of [m] starts anywhere in [s]. *)
Fixpoint no_match (m : str -> option (nat * str)) (s : str) : Prop :=
  m s = None /\ match s with [] => True | _ :: s' => no_match m s' end.

(** A document in the target form: none of the patterns of the removal and
    namespace rules matches in it. *)
Definition target_form (content : str) : bool :=
  negb (Re.search creator_re content)
  && negb (Re.search lap_extensions_re content)
  && negb (occurs tpx_open content)
  && negb (occurs (lit "</TPX>") content)
  && negb (occurs (lit "<Speed>") content)
  && negb (occurs (lit "</Speed>") content)
  && negb (occurs (lit "<Watts>") content)
  && negb (occurs (lit "</Watts>") content)
  && negb (Re.search resistance_re content).

(** Every key of the lookup is a text (no Time element was empty). *)
Definition keys_have_text {R : Runtime} (sd : speed_table) : bool :=
  forallb (fun item => match fst item with Some _ => true | None => false end)
    sd.

(** Text without the character [<]. *)
Definition no_lt (s : str) : bool :=
  forallb (fun c => negb (Ascii.eqb c "<")) s.

(** Text shaped like a tag: it opens with [<] and has no other [<]. *)
Definition tagged (s : str) : bool :=
  match s with
  | c :: s' => Ascii.eqb c "<" && no_lt s'
  | [] => false
  end.

(** The end of the text, or the start of a tag. *)
Definition at_tag (s : str) : bool :=
  match s with
  | c :: _ => Ascii.eqb c "<"
  | [] => true
  end.

(** An opening tag: [<], then a character other than [/], and no other
    [<]. A closing tag: [</] and no other [<]. *)
Definition opening (s : str) : bool :=
  match s with
  | c1 :: c2 :: s' =>
      Ascii.eqb c1 "<" && negb (Ascii.eqb c2 "/") && no_lt (c2 :: s')
  | _ => false
  end.

Definition closing (s : str) : bool :=
  match s with
  | c1 :: c2 :: s' => Ascii.eqb c1 "<" && Ascii.eqb c2 "/" && no_lt s'
  | _ => false
  end.

(** The end of the text, or the start of an opening tag. *)
Definition at_open (s : str) : bool :=
  match s with
  | [] => true
  | [c1] => Ascii.eqb c1 "<"
  | c1 :: c2 :: _ => Ascii.eqb c1 "<" && negb (Ascii.eqb c2 "/")
  end.

(** The tags [<name>] and [</name>], and the text [<name>v</name>]. *)
Definition open_tag (name : String.string) : str :=
  lit "<" ++ lit name ++ lit ">".

Definition close_tag (name : String.string) : str :=
  lit "</" ++ lit name ++ lit ">".

Definition element_text (name : String.string) (v : str) : str :=
  open_tag name ++ v ++ close_tag name.

(** The pattern [O(\d+)\.0C] and the replacement [O\1C] for an opening tag
    [O] and a closing tag [C]; [dot0_re] and [dot0_repl] are these at the
    tags of an element name. *)
Definition tag_dot0_re (O C : str) : Re.regex :=
  cat_all [Re.Lit O; Re.Group 1 (Re.Plus Re.digit); Re.Lit (lit ".0" ++ C)].

Definition tag_dot0_repl (O C : str) : Re.template :=
  [Re.TLit O; Re.TGroup 1; Re.TLit C].

(** The bare integer of a value written as digits followed by [.0], and any
    other value as it is. *)
Definition strip_dot0 (v : str) : str :=
  let (ds, rest) := span Re.digit v in
  match ds with
  | [] => v
  | _ => if str_eqb rest (lit ".0") then ds else v
  end.

(* ================================================================= *)
(** ** Example documents *)

Module Samples.
Import Demo.

Definition root_open : str :=
  lit "<TrainingCenterDatabase xmlns=" ++ dq
  ++ lit "http://www.garmin.com/xmlschemas/TrainingCenterDatabase/v2" ++ dq
  ++ lit ">".

Definition document (laps : str) : str :=
  root_open ++ lit "<Activities><Activity><Id>ride</Id>" ++ laps
  ++ lit "</Activity></Activities></TrainingCenterDatabase>".

Definition lap (tracks : str) : str := lit "<Lap>" ++ tracks ++ lit "</Lap>".

Definition track (points : str) : str :=
  lit "<Track>" ++ points ++ lit "</Track>".

Definition point (fields : str) : str :=
  lit "<Trackpoint>" ++ fields ++ lit "</Trackpoint>".

Definition time (t : String.string) : str :=
  lit "<Time>" ++ lit t ++ lit "</Time>".

Definition distance (d : String.string) : str :=
  lit "<DistanceMeters>" ++ lit d ++ lit "</DistanceMeters>".

(** A sample extension block as the source format writes it. *)
Definition extension (inner : String.string) : str :=
  lit "<Extensions>" ++ tpx_open ++ lit inner ++ lit "</TPX></Extensions>".

(** The same block after the namespace rule. *)
Definition ns3_extension (inner : String.string) : str :=
  lit "<Extensions><ns3:TPX>" ++ lit inner ++ lit "</ns3:TPX></Extensions>".

Definition newline : String.string := String.String "010" "".

Definition t0 : String.string := "2024-01-01T10:00:00Z".
Definition t1 : String.string := "2024-01-01T10:00:10Z".
Definition t2 : String.string := "2024-01-01T10:00:20Z".

(** One lap, one track, three trackpoints at 0, 10 and 25 metres, ten
    seconds apart. *)
Definition ride : str :=
  document
    (lit "<Creator><Name>Bike</Name></Creator>"
     ++ lap (extension "<AvgWatts>150</AvgWatts>"
             ++ track
                  (point (time t0 ++ distance "0.0"
                          ++ lit "<HeartRateBpm><Value>142.0</Value></HeartRateBpm>"
                          ++ lit "<Cadence>80.0</Cadence>"
                          ++ extension
                               "<Speed>3.3</Speed><Watts>150.0</Watts><Resistance>40</Resistance>")
                   ++ point (time t1 ++ distance "10.0"
                             ++ extension "<Speed>3.3</Speed>")
                   ++ point (time t2 ++ distance "25.0"
                             ++ extension "<Speed>3.3</Speed>")))).

(** What the rewriting and the injection make of [ride]. *)
Definition ride_converted : str :=
  document
    (lap (track
            (point (time t0 ++ distance "0.0"
                    ++ lit "<HeartRateBpm><Value>142</Value></HeartRateBpm>"
                    ++ lit "<Cadence>80</Cadence>"
                    ++ ns3_extension
                         "<ns3:Speed>0</ns3:Speed><ns3:Watts>150</ns3:Watts>")
             ++ point (time t1 ++ distance "10.0"
                       ++ ns3_extension "<ns3:Speed>1.0</ns3:Speed>")
             ++ point (time t2 ++ distance "25.0"
                       ++ ns3_extension "<ns3:Speed>1.5</ns3:Speed>")))).

(** A first trackpoint without a Speed element, followed by a trackpoint
    that has a Speed but no DistanceMeters. *)
Definition missing_speed : str :=
  document
    (lap (track
            (point (time t1 ++ distance "0.0")
             ++ point (time t2 ++ extension "<Speed>5.0</Speed>")))).

Definition missing_speed_converted : str :=
  document
    (lap (track
            (point (time t1 ++ distance "0.0")
             ++ point (time t2 ++ ns3_extension "<ns3:Speed>0</ns3:Speed>")))).

(** Two laps; the second starts earlier and passes the timestamp the first
    one started on. *)
Definition two_laps : str :=
  document
    (lap (track (point (time t1 ++ distance "0.0")
                 ++ point (time t2 ++ distance "10.0")))
     ++ lap (track (point (time t0 ++ distance "0.0")
                    ++ point (time t1 ++ distance "5.0")))).

(** One lap with two tracks. *)
Definition two_tracks : str :=
  document
    (lap (track (point (time t0 ++ distance "0.0"))
          ++ track (point (time t1 ++ distance "10.0")))).

(** A Resistance element written over three lines. *)
Definition resistance_lines : str :=
  document
    (lap (track
            (point (time t0 ++ distance "0.0"
                    ++ lit "<Extensions>" ++ tpx_open
                    ++ lit "<Speed>3.3</Speed><Resistance>" ++ lit newline
                    ++ lit "40" ++ lit newline
                    ++ lit "</Resistance></TPX></Extensions>")))).

(** A trackpoint whose DistanceMeters element is empty. *)
Definition empty_distance : str :=
  document
    (lap (track (point (time t0 ++ lit "<DistanceMeters/>")))).

Definition no_elem : ET.elem := ET.Element [] [] None None [].

(** The tree of a document of the examples. *)
Definition tree_of (doc : str) : ET.elem :=
  match parse_document doc with
  | Some tree => tree
  | None => no_elem
  end.

Definition the (o : option ET.elem) : ET.elem :=
  match o with
  | Some e => e
  | None => no_elem
  end.

Definition key_of (t : String.string) : key := Some (lit t).

(** The parsed documents, evaluated once. *)
Definition ride_tree : ET.elem := Eval vm_compute in tree_of ride.
Definition two_laps_tree : ET.elem := Eval vm_compute in tree_of two_laps.
Definition two_tracks_tree : ET.elem := Eval vm_compute in tree_of two_tracks.
Definition missing_speed_tree : ET.elem :=
  Eval vm_compute in tree_of missing_speed.
Definition empty_distance_tree : ET.elem :=
  Eval vm_compute in tree_of empty_distance.

(** The Activity, the Lap and the processed Track of [ride], its
    trackpoints, and the first of them with its Time and DistanceMeters
    elements. *)
Definition ride_activity : ET.elem :=
  Eval vm_compute in nth 0 (ET.findall (tcx "Activity") ride_tree) no_elem.
Definition ride_lap : ET.elem :=
  Eval vm_compute in nth 0 (ET.findall (tcx "Lap") ride_activity) no_elem.
Definition ride_track : ET.elem :=
  Eval vm_compute in nth 0 (processed_tracks ride_tree) no_elem.
Definition ride_first : ET.elem :=
  Eval vm_compute in nth 0 (ET.findall (tcx "Trackpoint") ride_track) no_elem.
Definition ride_second : ET.elem :=
  Eval vm_compute in nth 1 (ET.findall (tcx "Trackpoint") ride_track) no_elem.
Definition ride_third : ET.elem :=
  Eval vm_compute in nth 2 (ET.findall (tcx "Trackpoint") ride_track) no_elem.
Definition ride_time : ET.elem :=
  Eval vm_compute in the (ET.find (tcx "Time") ride_first).
Definition ride_distance : ET.elem :=
  Eval vm_compute in the (ET.find (tcx "DistanceMeters") ride_first).
Definition ride_second_time : ET.elem :=
  Eval vm_compute in the (ET.find (tcx "Time") ride_second).
Definition ride_second_distance : ET.elem :=
  Eval vm_compute in the (ET.find (tcx "DistanceMeters") ride_second).

(** The lookup built for [ride]. *)
Definition ride_table : speed_table :=
  [(key_of t0, Int 0); (key_of t1, Float 1%Q); (key_of t2, Float (3 # 2)%Q)].

(** The first track of [two_laps] and its first trackpoint. *)
Definition laps_first_track : ET.elem :=
  Eval vm_compute in nth 0 (processed_tracks two_laps_tree) no_elem.
Definition laps_first_point : ET.elem :=
  Eval vm_compute in
    nth 0 (ET.findall (tcx "Trackpoint") laps_first_track) no_elem.

(** The lookup built for [two_laps]. *)
Definition laps_table : speed_table :=
  [(key_of t1, Float (1 # 2)%Q); (key_of t2, Float 1%Q); (key_of t0, Int 0)].

(** The second Track element of [two_tracks] and its trackpoint. *)
Definition second_track : ET.elem :=
  Eval vm_compute in nth 1 (ET.findall (tcx "Track") two_tracks_tree) no_elem.
Definition second_point : ET.elem :=
  Eval vm_compute in
    nth 0 (ET.findall (tcx "Trackpoint") second_track) no_elem.

End Samples.

(* ================================================================= *)
(** ** The cleaning functions *)

(** [clean_value] and [process_element] are not called by the conversion;
    they are modelled here for their own properties. *)
Module Cleaning.

(** [int(round(x))] on a float: the integer, or the exception it ends in
    on a NaN ([ValueError]) and on an infinity ([OverflowError]). *)
Inductive rounded :=
| Rounded (z : Z)
| RoundNaN
| RoundInf.

(** A call that returns, or ends in the one exception [clean_value] does
    not catch. *)
Inductive outcome (A : Type) :=
| Returned (a : A)
| Overflow.
Arguments Returned {A} a.
Arguments Overflow {A}.

(** [elem.tag.split('}')[-1] if '}' in elem.tag else elem.tag] *)
Fixpoint local_name (t : str) : str :=
  match t with
  | [] => []
  | c :: t' =>
      if existsb (Ascii.eqb "}") t' then local_name t'
      else if Ascii.eqb c "}" then t' else t
  end.

(** Truth value of [elem.text]. *)
Definition truthy (t : option str) : bool :=
  match t with
  | Some (_ :: _) => true
  | _ => false
  end.

(** The elements whose text [process_element] cleans. *)
Definition cleaned (tag : str) : bool :=
  str_eqb (local_name tag) (lit "Value")
  || str_eqb (local_name tag) (lit "Cadence").

Section WithRounding.
Context {R : Runtime}.
Variable float_round : pyfloat -> rounded.

(** [clean_value(value, as_int)]: [ValueError] and [TypeError] are caught,
    and the value comes back as it is. *)
Definition clean_value (value : option str) (as_int : bool)
  : outcome (option str) :=
  match value with
  | None => Returned None
  | Some s =>
      match float_parse s with
      | None => Returned (Some s)
      | Some num =>
          if as_int then
            match float_round num with
            | Rounded z => Returned (Some (Z_repr z))
            | RoundNaN => Returned (Some s)
            | RoundInf => Overflow
            end
          else Returned (Some (float_repr num))
      end
  end.

(** [process_element(elem, ns)] changes the tree in place: the result is
    the tree as the call leaves it, and whether the call returned ([true])
    or ended in [OverflowError] ([false]), in which case the elements after
    the point of the exception are untouched. *)
Fixpoint process_element (e : ET.elem) : ET.elem * bool :=
  match e with
  | ET.Element tag att text tail cs =>
      let children :=
        fix children (l : list ET.elem) : list ET.elem * bool :=
          match l with
          | [] => ([], true)
          | c :: l' =>
              let (c', ok) := process_element c in
              if ok then
                let (l'', ok') := children l' in (c' :: l'', ok')
              else (c' :: l', false)
          end in
      if cleaned tag && truthy text then
        match clean_value text true with
        | Returned text' =>
            let (cs', ok) := children cs in
            (ET.Element tag att text' tail cs', ok)
        | Overflow => (e, false)
        end
      else
        let (cs', ok) := children cs in
        (ET.Element tag att text tail cs', ok)
  end.

(** The loop [for child in elem: process_element(child, ns)]. *)
Fixpoint process_children (l : list ET.elem) : list ET.elem * bool :=
  match l with
  | [] => ([], true)
  | c :: l' =>
      let (c', ok) := process_element c in
      if ok then
        let (l'', ok') := process_children l' in (c' :: l'', ok')
      else (c' :: l', false)
  end.

End WithRounding.
End Cleaning.

(* ================================================================= *)
(** ** Vocabulary of the further properties *)

(** Induction on elements: a property that holds of an element whenever it
    holds of its children holds of every element. *)
Section ElemInduction.
Variable P : ET.elem -> Prop.
Hypothesis step :
  forall tag att text tail cs,
    Forall P cs -> P (ET.Element tag att text tail cs).

Fixpoint elem_induction (e : ET.elem) : P e :=
  match e with
  | ET.Element tag att text tail cs =>
      step tag att text tail
        ((fix all (l : list ET.elem) : Forall P l :=
            match l with
            | [] => Forall_nil P
            | c :: l' => Forall_cons c (elem_induction c) (all l')
            end) cs)
  end.
End ElemInduction.

(** An element with every white-space-only text and tail forgotten: what
    is left is the tags, the attributes, the order of the children and the
    texts that carry data. *)
Fixpoint unindented (e : ET.elem) : ET.elem :=
  match e with
  | ET.Element tag att text tail cs =>
      ET.Element tag att
        (if blank text then None else text)
        (if blank tail then None else tail)
        (map unindented cs)
  end.

(** An element with the text of every Value and Cadence forgotten. *)
Fixpoint uncleaned (e : ET.elem) : ET.elem :=
  match e with
  | ET.Element tag att text tail cs =>
      ET.Element tag att
        (if Cleaning.cleaned tag then None else text) tail
        (map uncleaned cs)
  end.

(** No Value or Cadence of the element has a text that [float()] accepts. *)
Fixpoint no_number {R : Runtime} (e : ET.elem) : bool :=
  match e with
  | ET.Element tag att text tail cs =>
      negb (Cleaning.cleaned tag
            && match text with
               | Some s => match float_parse s with
                           | Some _ => true
                           | None => false
                           end
               | None => false
               end)
      && forallb no_number cs
  end.

(** The exceptions of the speed computation and of the injection. *)
Definition data_error (e : exn) : Prop :=
  e = ValueError \/ e = TypeError \/ e = AttributeError.

(** The timestamps of the samples of a track, and of all the tracks the
    loops reach, in the order the loops meet them. *)
Definition track_keys (track : ET.elem) : list key :=
  flat_map (fun tp => match sample_key tp with
                      | Some k => [k]
                      | None => []
                      end)
    (ET.findall (tcx "Trackpoint") track).

Definition document_keys (tree : ET.elem) : list key :=
  flat_map track_keys (processed_tracks tree).

(** A list of keys without its repetitions, each key where it first
    occurs. *)
Definition add_key (l : list key) (k : key) : list key :=
  if existsb (fun k' => key_eqb k' k) l then l else l ++ [k].

Definition first_occurrences (l : list key) : list key :=
  fold_left add_key l [].

(** The pattern [O.*?C] for two literals and a class for the dot: the
    Creator and Resistance patterns are of this shape. *)
Definition lazy_span_re (O : str) (dot : ascii -> bool) (C : str) : Re.regex :=
  cat_all [Re.Lit O; Re.Rep false dot; Re.Lit C].

(** The lap-extension pattern in two parts: what comes before the lazy
    [.*?], and what has to follow it. *)
Definition lap_tail : Re.regex :=
  cat_all [Re.Lit (lit "</TPX>"); Re.Rep true Re.space;
           Re.Lit (lit "</Extensions>"); Re.Rep true Re.space;
           Re.Ahead (Re.Lit (lit "<Track>"))].

Definition lap_head (tail : Re.regex) : Re.regex :=
  Re.Cat (Re.Lit (lit "<Extensions>"))
    (Re.Cat (Re.Rep true Re.space)
       (Re.Cat (Re.Lit (lit "<TPX"))
          (Re.Cat (Re.Rep true Re.not_gt)
             (Re.Cat (Re.Lit (lit ">"))
                (Re.Cat (Re.Rep false Re.any) tail))))).

(** The literal [<Time>T</Time>] of the injection pattern. *)
Definition time_tag (time_str : str) : str :=
  lit "<Time>" ++ time_str ++ lit "</Time>".

(** [s] ends in [t]. *)
Fixpoint suffix (t s : str) : Prop :=
  t = s \/ match s with [] => False | _ :: s' => suffix t s' end.


(* ================================================================= *)
(** ** Text, dictionaries and loops *)

Section TextFacts.

Lemma str_eqb_refl (a : str) : str_eqb a a = true.
Proof.
  induction a as [|x a IH]; simpl; [reflexivity|].
  now rewrite Ascii.eqb_refl.
Qed.

Lemma str_eqb_eq (a b : str) : str_eqb a b = true <-> a = b.
Proof.
  split; [|intros ->; apply str_eqb_refl].
  revert b; induction a as [|x a IH]; intros [|y b]; simpl; try easy.
  rewrite andb_true_iff, Ascii.eqb_eq.
  intros [-> H]. now rewrite (IH _ H).
Qed.

Lemma str_eqb_neq (a b : str) : str_eqb a b = false <-> a <> b.
Proof.
  rewrite <- str_eqb_eq. destruct (str_eqb a b); split; congruence.
Qed.

Lemma strip_prefix_app (p s : str) : strip_prefix p (p ++ s) = Some s.
Proof.
  induction p as [|x p IH]; simpl; [reflexivity|].
  now rewrite Ascii.eqb_refl.
Qed.

Lemma strip_prefix_Some (p s t : str) :
  strip_prefix p s = Some t -> s = p ++ t.
Proof.
  revert s; induction p as [|x p IH]; intros s; simpl.
  - congruence.
  - destruct s as [|y s]; [discriminate|].
    destruct (Ascii.eqb x y) eqn:E; [|discriminate].
    apply Ascii.eqb_eq in E as ->. intros H. now rewrite (IH _ H).
Qed.

End TextFacts.

Section DictFacts.
Variables K V : Type.
Variable eqb : K -> K -> bool.
Hypothesis eqb_eq : forall a b, eqb a b = true <-> a = b.

Lemma dict_get_set_same (d : dict K V) k v :
  dict_get eqb (dict_set eqb d k v) k = Some v.
Proof.
  assert (Hr : eqb k k = true) by now apply eqb_eq.
  induction d as [|[k' v'] d IH]; simpl.
  - now rewrite Hr.
  - destruct (eqb k' k) eqn:E; simpl.
    + now rewrite Hr.
    + now rewrite E.
Qed.

Lemma dict_get_set_other (d : dict K V) k k' v :
  k' <> k -> dict_get eqb (dict_set eqb d k' v) k = dict_get eqb d k.
Proof.
  intros Hne.
  assert (Hf : eqb k' k = false).
  { destruct (eqb k' k) eqn:E; [|reflexivity].
    now apply eqb_eq in E. }
  induction d as [|[k0 v0] d IH]; simpl.
  - now rewrite Hf.
  - destruct (eqb k0 k') eqn:E; simpl.
    + apply eqb_eq in E as ->. now rewrite Hf.
    + now rewrite IH.
Qed.

Lemma dict_set_length (d : dict K V) k v :
  length (dict_set eqb d k v) <= S (length d).
Proof.
  induction d as [|[k' v'] d IH]; simpl; [lia|].
  destruct (eqb k' k); simpl; lia.
Qed.
End DictFacts.

Section LoopFacts.
Variables A S : Type.
Variable body : S -> A -> result S.

Lemma for_each_app (l1 l2 : list A) (s : S) :
  for_each body (l1 ++ l2) s
  = bind (for_each body l1 s) (for_each body l2).
Proof.
  revert s; induction l1 as [|a l1 IH]; intros s; simpl; [reflexivity|].
  destruct (body s a); simpl; [apply IH|reflexivity].
Qed.

(** A property kept by every iteration is kept by the loop. *)
Lemma for_each_invariant (P : S -> Prop) (l : list A) :
  (forall s a s', In a l -> P s -> body s a = Ok s' -> P s') ->
  forall s s', P s -> for_each body l s = Ok s' -> P s'.
Proof.
  induction l as [|a l IH]; intros Hstep s s' Hs; simpl.
  - now intros [= <-].
  - destruct (body s a) as [s1|e] eqn:E; simpl; [|discriminate].
    apply IH.
    + intros s0 a0 s0' Hin. apply Hstep. now right.
    + eapply Hstep; [now left|exact Hs|exact E].
Qed.

(** A loop that ends normally ran the body on each of its elements. *)
Lemma for_each_split (l1 l2 : list A) (a : A) (s s' : S) :
  for_each body (l1 ++ a :: l2) s = Ok s' ->
  exists s1 s2,
    for_each body l1 s = Ok s1 /\ body s1 a = Ok s2
    /\ for_each body l2 s2 = Ok s'.
Proof.
  rewrite for_each_app.
  destruct (for_each body l1 s) as [s1|e]; simpl; [|discriminate].
  destruct (body s1 a) as [s2|e] eqn:E; simpl; [|discriminate].
  intros H. now exists s1, s2.
Qed.
End LoopFacts.

Lemma for_each_flat_map {A B S} (body : S -> B -> result S) (f : A -> list B)
  (l : list A) (s : S) :
  for_each (fun s a => for_each body (f a) s) l s
  = for_each body (flat_map f l) s.
Proof.
  revert s; induction l as [|a l IH]; intros s; simpl; [reflexivity|].
  rewrite for_each_app.
  destruct (for_each body (f a) s); simpl; [apply IH|reflexivity].
Qed.

(* ================================================================= *)
(** ** The speed lookup *)

Unset Implicit Arguments.

Section SpeedFacts.
Context {R : Runtime}.

Lemma key_eqb_eq (a b : key) : key_eqb a b = true <-> a = b.
Proof.
  destruct a as [a|], b as [b|]; simpl; try easy.
  rewrite str_eqb_eq. split; congruence.
Qed.

Lemma trackpoint_step_skipped (st : loop_state pyfloat) (tp : ET.elem) :
  sample_key tp = None -> trackpoint_step st tp = Ok st.
Proof.
  unfold sample_key, trackpoint_step.
  destruct (ET.find (tcx "Time") tp); [|reflexivity].
  destruct (ET.find (tcx "DistanceMeters") tp); [discriminate|reflexivity].
Qed.

Lemma for_each_skipped (st : loop_state pyfloat) (l : list ET.elem) :
  (forall x, In x l -> sample_key x = None) ->
  for_each trackpoint_step l st = Ok st.
Proof.
  induction l as [|x l IH]; intros H; simpl; [reflexivity|].
  rewrite trackpoint_step_skipped by (apply H; now left).
  simpl. apply IH. intros y Hy. apply H. now right.
Qed.

(** What one iteration does to the table: nothing, or one assignment. *)
Lemma trackpoint_step_table (st st' : loop_state pyfloat) (tp : ET.elem) :
  trackpoint_step st tp = Ok st' ->
  match sample_key tp with
  | None => st' = st
  | Some k =>
      exists v, speed_data st' = dict_set key_eqb (speed_data st) k v
                /\ prev_time st' = k
  end.
Proof.
  unfold sample_key, trackpoint_step.
  destruct (ET.find (tcx "Time") tp) as [te|]; [|now intros [= <-]].
  destruct (ET.find (tcx "DistanceMeters") tp) as [de|]; [|now intros [= <-]].
  destruct (float_of_text (ET.text de)) as [d|]; simpl; [|discriminate].
  destruct (calculate_speed _ _ _ _) as [v|]; simpl; [|discriminate].
  intros [= <-]. now exists v.
Qed.

End SpeedFacts.

(** C1. In every track, the speed recomputed for the first trackpoint that
    has both a Time and a DistanceMeters element is the integer 0, whatever
    its distance [d] is: once the loop has passed that trackpoint the
    lookup holds 0 under its timestamp. (The track may have any number of
    further samples; none is needed.) *)
Theorem first_sample_speed_zero {R : Runtime} (track : ET.elem)
  (sd : speed_table) (pre post : list ET.elem) (tp time_elem dist_elem : ET.elem)
  (d : num pyfloat) :
  ET.findall (tcx "Trackpoint") track = pre ++ tp :: post ->
  (forall x, In x pre -> sample_key x = None) ->
  ET.find (tcx "Time") tp = Some time_elem ->
  ET.find (tcx "DistanceMeters") tp = Some dist_elem ->
  float_of_text (ET.text dist_elem) = Ok d ->
  calculate_speed (Int 0) d None (ET.text time_elem) = Ok (Int 0)
  /\ exists st,
       for_each trackpoint_step (pre ++ [tp]) (track_start sd) = Ok st
       /\ speed_data st = dict_set key_eqb sd (ET.text time_elem) (Int 0)
       /\ dict_get key_eqb (speed_data st) (ET.text time_elem) = Some (Int 0)
       /\ prev_distance st = d.
Proof.
  intros _ Hpre Ht Hd Hf. split; [reflexivity|].
  rewrite for_each_app, (for_each_skipped _ _ Hpre). simpl.
  unfold trackpoint_step. rewrite Ht, Hd, Hf. simpl.
  eexists. split; [reflexivity|]. simpl.
  repeat split. apply dict_get_set_same, key_eqb_eq.
Qed.

Lemma datetime_sub_diag (a : datetime) : datetime_sub a a = Ok 0%Z.
Proof.
  unfold datetime_sub. destruct (utcoffset a); f_equal; lia.
Qed.

Lemma parse_time_raises {R : Runtime} (t : option str) (e : exn) :
  parse_time t = Raise e -> e = AttributeError \/ e = ValueError.
Proof.
  unfold parse_time. destruct t as [s|]; [|intros [= <-]; now left].
  destruct (fromisoformat _); simpl; [discriminate|].
  intros [= <-]. now right.
Qed.

Lemma truediv_nonzero {R : Runtime} (a b : num pyfloat) :
  num_is_zero b = false -> truediv a b <> Raise ZeroDivisionError.
Proof.
  unfold truediv. now intros ->.
Qed.

(** C4. Two consecutive samples with equal timestamps, and more generally
    two samples with no time elapsed between them, give the later one the
    speed 0 (for timestamps that [parse_time] accepts); and on no input at
    all does [calculate_speed] end in [ZeroDivisionError]. *)
Theorem calculate_speed_zero_elapsed {R : Runtime} :
  (forall prev_distance curr_distance t a,
      parse_time (Some t) = Ok a ->
      calculate_speed prev_distance curr_distance (Some t) (Some t)
      = Ok (Int 0))
  /\ (forall prev_distance curr_distance t1 t2 a b,
      parse_time (Some t1) = Ok a ->
      parse_time (Some t2) = Ok b ->
      datetime_sub b a = Ok 0%Z ->
      calculate_speed prev_distance curr_distance (Some t1) (Some t2)
      = Ok (Int 0))
  /\ (forall prev_distance curr_distance prev_time curr_time,
      calculate_speed prev_distance curr_distance prev_time curr_time
      <> Raise ZeroDivisionError).
Proof.
  assert (Hz : forall pd cd t1 t2 a b,
             parse_time (Some t1) = Ok a -> parse_time (Some t2) = Ok b ->
             datetime_sub b a = Ok 0%Z ->
             calculate_speed pd cd (Some t1) (Some t2) = Ok (Int 0)).
  { intros pd cd t1 t2 a b Ha Hb Hd. unfold calculate_speed.
    rewrite Ha, Hb. cbn [bind]. rewrite Hd. cbn [bind num_is_zero].
    now rewrite total_seconds_0. }
  split; [|split].
  - intros pd cd t a Ha. apply (Hz pd cd t t a a Ha Ha), datetime_sub_diag.
  - exact Hz.
  - intros pd cd pt ct. unfold calculate_speed.
    destruct pt as [t|]; [|discriminate].
    destruct (parse_time ct) as [c|e] eqn:Hc; cbn [bind].
    2:{ apply parse_time_raises in Hc. destruct Hc; subst; discriminate. }
    destruct (parse_time (Some t)) as [p|e] eqn:Hp; cbn [bind].
    2:{ apply parse_time_raises in Hp. destruct Hp; subst; discriminate. }
    destruct (datetime_sub c p) as [d|e] eqn:Hd; cbn [bind].
    2:{ unfold datetime_sub in Hd.
        destruct (utcoffset c), (utcoffset p); now inversion Hd. }
    cbv zeta.
    destruct (num_is_zero (Float (total_seconds d))) eqn:E; [discriminate|].
    now apply truediv_nonzero.
Qed.

Section TableFacts.
Context {R : Runtime}.

Lemma bind_Ok_r {A} (m : result A) : bind m Ok = m.
Proof. now destruct m. Qed.

Lemma for_each_ext {A S} (f g : S -> A -> result S) (l : list A) (s : S) :
  (forall s a, f s a = g s a) -> for_each f l s = for_each g l s.
Proof.
  intros H. revert s; induction l as [|a l IH]; intros s; simpl;
    [reflexivity|].
  rewrite H. destruct (g s a); simpl; [apply IH|reflexivity].
Qed.

(** The three nested loops visit the processed tracks one after another. *)
Lemma build_speed_data_tracks (tree : ET.elem) :
  build_speed_data tree = for_each track_speeds (processed_tracks tree) [].
Proof.
  unfold build_speed_data, processed_tracks.
  rewrite <- for_each_flat_map. apply for_each_ext. intros sd activity.
  unfold activity_step. rewrite <- for_each_flat_map.
  apply for_each_ext. intros sd' lap. unfold lap_step, first_track.
  destruct (ET.find (tcx "Track") lap); simpl; [|reflexivity].
  now rewrite bind_Ok_r.
Qed.

Lemma track_speeds_loop (sd sd' : speed_table) (track : ET.elem) :
  track_speeds sd track = Ok sd' ->
  exists st,
    for_each trackpoint_step (ET.findall (tcx "Trackpoint") track)
      (track_start sd) = Ok st
    /\ speed_data st = sd'.
Proof.
  unfold track_speeds.
  destruct (for_each _ _ _) as [st|]; simpl; [|discriminate].
  intros [= <-]. now exists st.
Qed.

Lemma dict_get_set_mono (d : speed_table) (k k' : key) (v : num pyfloat) :
  dict_get key_eqb d k <> None ->
  dict_get key_eqb (dict_set key_eqb d k' v) k <> None.
Proof.
  intros H. destruct (key_eqb k' k) eqn:E.
  - apply key_eqb_eq in E as ->.
    now rewrite (dict_get_set_same key_eqb key_eqb_eq).
  - rewrite (dict_get_set_other key_eqb key_eqb_eq); [exact H|].
    intros ->. now rewrite (proj2 (key_eqb_eq k k)) in E.
Qed.

(** Trackpoints with other timestamps leave the entry of [k] alone. *)
Lemma loop_keeps_entry (l : list ET.elem) (st st' : loop_state pyfloat) (k : key) :
  (forall x, In x l -> sample_key x <> Some k) ->
  for_each trackpoint_step l st = Ok st' ->
  dict_get key_eqb (speed_data st') k = dict_get key_eqb (speed_data st) k.
Proof.
  intros Hl.
  apply (for_each_invariant trackpoint_step
           (fun s => dict_get key_eqb (speed_data s) k
                     = dict_get key_eqb (speed_data st) k));
    [|reflexivity].
  intros s a s' Hin Hs Hstep. apply trackpoint_step_table in Hstep.
  specialize (Hl a Hin). destruct (sample_key a) as [k'|].
  - destruct Hstep as (v & -> & _).
    rewrite (dict_get_set_other key_eqb key_eqb_eq); [exact Hs|congruence].
  - now subst.
Qed.

Lemma loop_keeps_key (l : list ET.elem) (st st' : loop_state pyfloat) (k : key) :
  dict_get key_eqb (speed_data st) k <> None ->
  for_each trackpoint_step l st = Ok st' ->
  dict_get key_eqb (speed_data st') k <> None.
Proof.
  apply (for_each_invariant trackpoint_step
           (fun s => dict_get key_eqb (speed_data s) k <> None)).
  intros s a s' _ Hs Hstep. apply trackpoint_step_table in Hstep.
  destruct (sample_key a) as [k'|].
  - destruct Hstep as (v & -> & _). now apply dict_get_set_mono.
  - now subst.
Qed.

Lemma loop_size (l : list ET.elem) (st st' : loop_state pyfloat) :
  for_each trackpoint_step l st = Ok st' ->
  length (speed_data st') <= length (speed_data st) + length l.
Proof.
  revert st; induction l as [|a l IH]; intros st; simpl.
  - intros [= <-]. lia.
  - destruct (trackpoint_step st a) as [s1|] eqn:E; simpl; [|discriminate].
    intros H. apply IH in H. apply trackpoint_step_table in E.
    destruct (sample_key a).
    + destruct E as (v & E & _). rewrite E in H.
      pose proof (dict_set_length key_eqb (speed_data st) k v). lia.
    + subst. lia.
Qed.

Lemma track_keeps_entry (sd sd' : speed_table) (track : ET.elem) (k : key) :
  (forall x, In x (ET.findall (tcx "Trackpoint") track) ->
             sample_key x <> Some k) ->
  track_speeds sd track = Ok sd' ->
  dict_get key_eqb sd' k = dict_get key_eqb sd k.
Proof.
  intros Hl H. apply track_speeds_loop in H as (st & H & <-).
  now apply (loop_keeps_entry _ _ _ _ Hl) in H.
Qed.

Lemma track_keeps_key (sd sd' : speed_table) (track : ET.elem) (k : key) :
  dict_get key_eqb sd k <> None ->
  track_speeds sd track = Ok sd' ->
  dict_get key_eqb sd' k <> None.
Proof.
  intros Hk H. apply track_speeds_loop in H as (st & H & <-).
  now apply (loop_keeps_key _ (track_start sd) _ k Hk) in H.
Qed.

(** The first sample of a track: no predecessor, speed 0. *)
Lemma trackpoint_step_first (sd : speed_table) (tp : ET.elem)
  (st : loop_state pyfloat) (k : key) :
  sample_key tp = Some k ->
  trackpoint_step (track_start sd) tp = Ok st ->
  speed_data st = dict_set key_eqb sd k (Int 0).
Proof.
  unfold sample_key, trackpoint_step.
  destruct (ET.find (tcx "Time") tp) as [te|]; [|discriminate].
  destruct (ET.find (tcx "DistanceMeters") tp) as [de|]; [|discriminate].
  intros [= <-].
  destruct (float_of_text (ET.text de)) as [d|]; simpl; [|discriminate].
  now intros [= <-].
Qed.

(** A sample of a track is a key of the table after the track. *)
Lemma track_enters_samples (sd sd' : speed_table) (track tp : ET.elem)
  (k : key) :
  In tp (ET.findall (tcx "Trackpoint") track) ->
  sample_key tp = Some k ->
  track_speeds sd track = Ok sd' ->
  dict_get key_eqb sd' k <> None.
Proof.
  intros Hin Hk H. apply track_speeds_loop in H as (st & H & <-).
  apply in_split in Hin as (l1 & l2 & Hl). rewrite Hl in H.
  apply for_each_split in H as (s1 & s2 & _ & Hstep & Hrest).
  apply (loop_keeps_key l2 s2 st k); [|exact Hrest].
  apply trackpoint_step_table in Hstep. rewrite Hk in Hstep.
  destruct Hstep as (v & -> & _).
  now rewrite (dict_get_set_same key_eqb key_eqb_eq).
Qed.

End TableFacts.

Lemma tracks_keep_entry {R : Runtime} (tracks : list ET.elem)
  (sd sd' : speed_table) (k : key) :
  (forall t x, In t tracks -> In x (ET.findall (tcx "Trackpoint") t) ->
               sample_key x <> Some k) ->
  for_each track_speeds tracks sd = Ok sd' ->
  dict_get key_eqb sd' k = dict_get key_eqb sd k.
Proof.
  intros Hl.
  apply (for_each_invariant track_speeds
           (fun s => dict_get key_eqb s k = dict_get key_eqb sd k));
    [|reflexivity].
  intros s t s' Hin Hs Hstep. rewrite <- Hs.
  apply (track_keeps_entry s s' t k); [|exact Hstep].
  intros x. now apply Hl.
Qed.

Lemma tracks_keep_key {R : Runtime} (tracks : list ET.elem)
  (sd sd' : speed_table) (k : key) :
  dict_get key_eqb sd k <> None ->
  for_each track_speeds tracks sd = Ok sd' ->
  dict_get key_eqb sd' k <> None.
Proof.
  apply (for_each_invariant track_speeds
           (fun s => dict_get key_eqb s k <> None)).
  intros s t s' _ Hs Hstep. now apply (track_keeps_key s s' t k).
Qed.

(** C3 (amended). A track with N trackpoints adds at most N entries to the
    lookup. In the lookup built for a whole document, the entry under the
    timestamp of the first sample of a processed track is 0 when no later
    sample carries the same timestamp string, neither later in that track
    nor in a track processed after it. *)
Theorem speed_table_first_sample {R : Runtime} :
  (forall sd sd' track,
      track_speeds sd track = Ok sd' ->
      length sd' <= length sd + length (ET.findall (tcx "Trackpoint") track))
  /\ (forall tree sd before track after pre tp post k,
      build_speed_data tree = Ok sd ->
      processed_tracks tree = before ++ track :: after ->
      ET.findall (tcx "Trackpoint") track = pre ++ tp :: post ->
      (forall x, In x pre -> sample_key x = None) ->
      sample_key tp = Some k ->
      (forall x, In x post -> sample_key x <> Some k) ->
      (forall t x, In t after -> In x (ET.findall (tcx "Trackpoint") t) ->
                   sample_key x <> Some k) ->
      dict_get key_eqb sd k = Some (Int 0)).
Proof.
  split.
  - intros sd sd' track H. apply track_speeds_loop in H as (st & H & <-).
    now apply loop_size in H.
  - intros tree sd before track after pre tp post k Hb Htr Htp Hpre Hk
      Hpost Hafter.
    rewrite build_speed_data_tracks, Htr in Hb.
    apply for_each_split in Hb as (sd1 & sd2 & _ & Htrack & Hrest).
    rewrite (tracks_keep_entry after sd2 sd k Hafter Hrest).
    apply track_speeds_loop in Htrack as (st & Hloop & <-).
    rewrite Htp in Hloop.
    apply for_each_split in Hloop as (s1 & s2 & H1 & H2 & H3).
    rewrite (for_each_skipped _ _ Hpre) in H1. injection H1 as <-.
    rewrite (loop_keeps_entry post s2 st k Hpost H3).
    rewrite (trackpoint_step_first sd1 tp s2 k Hk H2).
    apply dict_get_set_same, key_eqb_eq.
Qed.

(** C7 (amended). For every Lap found at any depth below an Activity found
    at any depth below the root, the first Track below that Lap is read:
    each of its trackpoints that has a Time and a DistanceMeters element is
    a key of the speed lookup. *)
Theorem first_track_samples_in_lookup {R : Runtime}
  (tree activity lap track tp : ET.elem) (sd : speed_table) (k : key) :
  build_speed_data tree = Ok sd ->
  In activity (ET.findall (tcx "Activity") tree) ->
  In lap (ET.findall (tcx "Lap") activity) ->
  ET.find (tcx "Track") lap = Some track ->
  In tp (ET.findall (tcx "Trackpoint") track) ->
  sample_key tp = Some k ->
  exists speed, dict_get key_eqb sd k = Some speed.
Proof.
  intros Hb Ha Hl Ht Htp Hk.
  assert (Hin : In track (processed_tracks tree)).
  { unfold processed_tracks. apply in_flat_map. exists activity.
    split; [exact Ha|]. apply in_flat_map. exists lap.
    split; [exact Hl|]. unfold first_track. rewrite Ht. now left. }
  rewrite build_speed_data_tracks in Hb.
  apply in_split in Hin as (before & after & Hsplit). rewrite Hsplit in Hb.
  apply for_each_split in Hb as (sd1 & sd2 & _ & Htrack & Hrest).
  pose proof (track_enters_samples sd1 sd2 track tp k Htp Hk Htrack) as H2.
  pose proof (tracks_keep_key after sd2 sd k H2 Hrest) as H.
  destruct (dict_get key_eqb sd k) as [v|]; [now exists v|easy].
Qed.

(* ================================================================= *)
(** ** The scan of [re.sub] and [str.replace] *)

Section ScanFacts.

Lemma scan_ext (m m' : str -> option (nat * str)) :
  (forall t, m t = m' t) ->
  forall s limit skip, Re.scan m limit skip s = Re.scan m' limit skip s.
Proof.
  intros H. induction s as [|c s IH]; intros limit skip; simpl.
  - now rewrite H.
  - destruct skip; [|apply IH].
    destruct (Re.exhausted limit); [reflexivity|].
    rewrite H. destruct (m' (c :: s)) as [[[|n] new]|]; now rewrite IH.
Qed.

(** Where nothing matches, nothing changes. *)
Lemma scan_no_match (m : str -> option (nat * str)) (limit : option nat)
  (s : str) :
  no_match m s -> Re.scan m limit 0 s = s.
Proof.
  induction s as [|c s IH]; simpl.
  - intros [-> _]. now destruct (Re.exhausted limit).
  - intros [-> H]. destruct (Re.exhausted limit); [reflexivity|].
    now rewrite IH.
Qed.

(** Passing over the rest of a match. *)
Lemma scan_skip (m : str -> option (nat * str)) (limit : option nat)
  (x b : str) :
  Re.scan m limit (length x) (x ++ b) = Re.scan m limit 0 b.
Proof.
  induction x as [|c x IH]; simpl; [reflexivity|exact IH].
Qed.

Lemma search_no_match (r : Re.regex) (repl : Re.template) (s : str) :
  Re.search r s = false -> no_match (Re.re_match r repl) s.
Proof.
  induction s as [|c s IH]; simpl; unfold Re.re_match;
    destruct (Re.match_at r _) as [[n g]|]; try discriminate.
  - easy.
  - intros H. split; [reflexivity|now apply IH].
Qed.

Lemma occurs_no_match (old new s : str) :
  occurs old s = false -> no_match (Re.lit_match old new) s.
Proof.
  induction s as [|c s IH]; simpl; unfold Re.lit_match;
    destruct (strip_prefix old _); try discriminate.
  - easy.
  - intros H. split; [reflexivity|now apply IH].
Qed.

Lemma strip_prefix_length (p s t : str) :
  strip_prefix p s = Some t -> length s - length t = length p.
Proof.
  intros H. apply strip_prefix_Some in H as ->.
  rewrite length_app. lia.
Qed.

(** A pattern that is one literal is [str.replace]. *)
Lemma sub_lit (l new s : str) :
  Re.sub (Re.Lit l) [Re.TLit new] s 0 = Re.replace l new s.
Proof.
  unfold Re.sub, Re.replace. apply scan_ext. intros t.
  unfold Re.re_match, Re.match_at, Re.lit_match. simpl.
  destruct (strip_prefix l t) as [t'|] eqn:E; [|reflexivity].
  now rewrite (strip_prefix_length _ _ _ E), app_nil_r.
Qed.

Lemma sub_no_match (r : Re.regex) (repl : Re.template) (s : str) :
  Re.search r s = false -> Re.sub r repl s 0 = s.
Proof.
  intros H. apply scan_no_match. now apply search_no_match.
Qed.

Lemma replace_no_match (old new s : str) :
  occurs old s = false -> Re.replace old new s = s.
Proof.
  intros H. apply scan_no_match. now apply occurs_no_match.
Qed.

End ScanFacts.

(** C8. On a document that is already in the target form (no Creator
    element, no lap-level aggregate block, no Resistance element, and the
    TPX, Speed and Watts tags carrying the [ns3] prefix, so that no pattern
    of the rules matches) the removal and namespace rules change nothing:
    nothing more is removed and no prefix is added a second time. *)
Theorem removal_rules_idempotent (content : str) :
  target_form content = true -> removal_rules content = content.
Proof.
  unfold target_form. rewrite !andb_true_iff, !negb_true_iff.
  intros [[[[[[[[H1 H2] H3] H4] H5] H6] H7] H8] H9].
  unfold removal_rules, remove_resistance, fix_namespaces,
    remove_lap_extensions, remove_creator. cbv zeta.
  rewrite (sub_no_match _ _ _ H1), (sub_no_match _ _ _ H2).
  rewrite sub_lit, (replace_no_match _ _ _ H3).
  rewrite (replace_no_match _ _ _ H4), (replace_no_match _ _ _ H5).
  rewrite (replace_no_match _ _ _ H6), (replace_no_match _ _ _ H7).
  rewrite (replace_no_match _ _ _ H8).
  apply (sub_no_match _ _ _ H9).
Qed.

(* ================================================================= *)
(** ** Replacing tags *)

Section TagFacts.

Lemma strip_prefix_before_tag (p a rest : str) :
  no_lt p = true -> at_tag rest = true ->
  match strip_prefix p (a ++ rest) with
  | Some _ => strip_prefix p a <> None
  | None => strip_prefix p a = None
  end.
Proof.
  revert a; induction p as [|x p IH]; intros a Hp Hr; simpl; [easy|].
  simpl in Hp. apply andb_true_iff in Hp as [Hx Hp].
  apply negb_true_iff in Hx.
  destruct a as [|y a]; simpl.
  - destruct rest as [|c rest]; [reflexivity|].
    simpl in Hr. apply Ascii.eqb_eq in Hr as ->. now rewrite Hx.
  - destruct (Ascii.eqb x y); [now apply IH|reflexivity].
Qed.

(** Whether a tag-shaped literal matches inside [a] does not depend on
    what follows [a], as long as that is the start of another tag. *)
Lemma lit_match_before_tag (old new a rest : str) (c : ascii) :
  tagged old = true -> at_tag rest = true ->
  Re.lit_match old new (c :: a ++ rest) = Re.lit_match old new (c :: a).
Proof.
  intros Ho Hr. destruct old as [|x old]; [discriminate|].
  simpl in Ho. apply andb_true_iff in Ho as [_ Ho].
  unfold Re.lit_match. simpl.
  destruct (Ascii.eqb x c); [|reflexivity].
  pose proof (strip_prefix_before_tag old a rest Ho Hr) as H.
  destruct (strip_prefix old (a ++ rest)), (strip_prefix old a);
    congruence.
Qed.

Lemma lit_match_length (old new s : str) (n : nat) (t : str) :
  Re.lit_match old new s = Some (n, t) ->
  n = length old /\ t = new /\ length old <= length s.
Proof.
  unfold Re.lit_match. destruct (strip_prefix old s) as [s'|] eqn:E;
    [|discriminate].
  intros [= <- <-]. apply strip_prefix_Some in E as ->.
  rewrite length_app. repeat split. lia.
Qed.

(** The scan of the text before a tag is independent of the tag. *)
Lemma scan_before_tag (old new rest : str) :
  tagged old = true -> at_tag rest = true ->
  forall a skip, skip <= length a ->
    Re.scan (Re.lit_match old new) None skip (a ++ rest)
    = Re.scan (Re.lit_match old new) None skip a
      ++ Re.scan (Re.lit_match old new) None 0 rest.
Proof.
  intros Ho Hr. induction a as [|c a IH]; intros skip Hk.
  - simpl in Hk. replace skip with 0 by lia. simpl.
    destruct old; [discriminate|reflexivity].
  - destruct skip as [|k]; [|apply IH; simpl in Hk; lia].
    change ((c :: a) ++ rest) with (c :: a ++ rest).
    cbn [Re.scan Re.exhausted Re.dec_limit].
    rewrite (lit_match_before_tag old new a rest c Ho Hr).
    destruct (Re.lit_match old new (c :: a)) as [[n t]|] eqn:E.
    + apply lit_match_length in E as (-> & -> & Hlen).
      destruct old as [|x old]; [discriminate|]. simpl length.
      simpl in Hlen. cbv iota. rewrite IH by lia. now rewrite app_assoc.
    + now rewrite IH by lia.
Qed.

(** Text without [<] holds no match of a tag-shaped literal. *)
Lemma scan_inside_tag (old new x b : str) :
  tagged old = true -> no_lt x = true ->
  Re.scan (Re.lit_match old new) None 0 (x ++ b)
  = x ++ Re.scan (Re.lit_match old new) None 0 b.
Proof.
  intros Ho. destruct old as [|o old]; [discriminate|].
  simpl in Ho. apply andb_true_iff in Ho as [Ho _].
  apply Ascii.eqb_eq in Ho as ->.
  induction x as [|c x IH]; intros Hx; [reflexivity|].
  simpl in Hx. apply andb_true_iff in Hx as [Hc Hx].
  apply negb_true_iff in Hc. rewrite Ascii.eqb_sym in Hc.
  change ((c :: x) ++ b) with (c :: x ++ b).
  cbn [Re.scan Re.exhausted]. unfold Re.lit_match at 1. cbn [strip_prefix].
  rewrite Hc. now rewrite IH.
Qed.

(** The literal itself is replaced, wherever it stands. *)
Lemma replace_hit (old new a b : str) :
  tagged old = true ->
  Re.replace old new (a ++ old ++ b)
  = Re.replace old new a ++ new ++ Re.replace old new b.
Proof.
  intros Ho. unfold Re.replace.
  destruct old as [|c o]; [discriminate|].
  rewrite scan_before_tag; [|exact Ho| |lia].
  2:{ simpl in *. now apply andb_true_iff in Ho as [-> _]. }
  f_equal. change ((c :: o) ++ b) with (c :: o ++ b).
  cbn [Re.scan Re.exhausted Re.dec_limit].
  unfold Re.lit_match at 1.
  change (c :: o ++ b) with ((c :: o) ++ b) at 1.
  rewrite strip_prefix_app. simpl length. cbv iota.
  now rewrite scan_skip.
Qed.

(** Another tag is passed over unchanged. *)
Lemma replace_miss (old new tag a b : str) :
  tagged old = true -> tagged tag = true ->
  (forall b, Re.lit_match old new (tag ++ b) = None) ->
  Re.replace old new (a ++ tag ++ b)
  = Re.replace old new a ++ tag ++ Re.replace old new b.
Proof.
  intros Ho Ht Hm. unfold Re.replace.
  rewrite scan_before_tag; [|exact Ho| |lia].
  2:{ destruct tag; [discriminate|]. simpl in *.
      now apply andb_true_iff in Ht as [-> _]. }
  f_equal. specialize (Hm b).
  destruct tag as [|c tag]; [discriminate|].
  simpl in Ht. apply andb_true_iff in Ht as [_ Ht].
  change ((c :: tag) ++ b) with (c :: tag ++ b) in *.
  cbn [Re.scan Re.exhausted]. rewrite Hm.
  now rewrite scan_inside_tag.
Qed.

End TagFacts.

Ltac replace_tag :=
  first
    [ rewrite replace_hit by reflexivity
    | rewrite replace_miss by (reflexivity || (intros; reflexivity)) ].

Ltac fix_namespaces_at_tag :=
  intros; unfold fix_namespaces; cbv zeta; rewrite !sub_lit;
  do 6 replace_tag; reflexivity.

(** C10. The namespace step rewrites [</TPX>], [<Speed>], [</Speed>],
    [<Watts>] and [</Watts>] wherever they stand in the text: whatever
    comes before ([a]) and after ([b]) an occurrence - markup, character
    data, anything - the occurrence comes out with the [ns3] prefix, and the
    text around it is rewritten on its own. *)
Theorem fix_namespaces_everywhere :
  (forall a b, fix_namespaces (a ++ lit "</TPX>" ++ b)
               = fix_namespaces a ++ lit "</ns3:TPX>" ++ fix_namespaces b)
  /\ (forall a b, fix_namespaces (a ++ lit "<Speed>" ++ b)
               = fix_namespaces a ++ lit "<ns3:Speed>" ++ fix_namespaces b)
  /\ (forall a b, fix_namespaces (a ++ lit "</Speed>" ++ b)
               = fix_namespaces a ++ lit "</ns3:Speed>" ++ fix_namespaces b)
  /\ (forall a b, fix_namespaces (a ++ lit "<Watts>" ++ b)
               = fix_namespaces a ++ lit "<ns3:Watts>" ++ fix_namespaces b)
  /\ (forall a b, fix_namespaces (a ++ lit "</Watts>" ++ b)
               = fix_namespaces a ++ lit "</ns3:Watts>" ++ fix_namespaces b).
Proof.
  repeat split; fix_namespaces_at_tag.
Qed.

(* ================================================================= *)
(** ** The [.0] clean-up *)

Section RepFacts.

Lemma span_eq (p : ascii -> bool) (s : str) :
  s = fst (span p s) ++ snd (span p s).
Proof.
  induction s as [|c s IH]; simpl; [reflexivity|].
  destruct (p c); [|reflexivity].
  destruct (span p s) as [a b]. simpl in *. now rewrite IH at 1.
Qed.

Lemma span_all (p : ascii -> bool) (s : str) :
  forallb p (fst (span p s)) = true.
Proof.
  induction s as [|c s IH]; simpl; [reflexivity|].
  destruct (p c) eqn:E; [|reflexivity].
  destruct (span p s) as [a b]. simpl in *. now rewrite E.
Qed.

Lemma span_stop (p : ascii -> bool) (s : str) :
  match snd (span p s) with
  | c :: _ => p c = false
  | [] => True
  end.
Proof.
  induction s as [|c s IH]; simpl; [exact I|].
  destruct (p c) eqn:E; [|exact E].
  now destruct (span p s) as [a b].
Qed.

Lemma span_app (p : ascii -> bool) (ds x : str) :
  forallb p ds = true ->
  match x with c :: _ => p c = false | [] => True end ->
  span p (ds ++ x) = (ds, x).
Proof.
  intros Hds Hx. induction ds as [|d ds IH]; simpl.
  - destruct x as [|c x]; [reflexivity|]. simpl. now rewrite Hx.
  - simpl in Hds. apply andb_true_iff in Hds as [-> Hds].
    now rewrite (IH Hds).
Qed.

(** A greedy repetition whose continuation cannot start on a character of
    the class ends on the longest run. *)
Lemma rep_greedy_span {A} (p : ascii -> bool) (k : str -> option A) :
  (forall c s, p c = true -> k (c :: s) = None) ->
  forall s, Re.rep_greedy p k s = k (snd (span p s)).
Proof.
  intros Hk. induction s as [|c s IH]; simpl; [reflexivity|].
  destruct (p c) eqn:E; [|reflexivity].
  rewrite IH. destruct (span p s) as [a b]. simpl.
  destruct (k b); [reflexivity|]. now apply Hk.
Qed.

Lemma digit_not_dot (c : ascii) :
  Re.digit c = true -> Ascii.eqb "." c = false.
Proof.
  intros H. destruct (Ascii.eqb "." c) eqn:E; [|reflexivity].
  apply Ascii.eqb_eq in E as <-. discriminate.
Qed.

Lemma no_lt_app (a b : str) :
  no_lt (a ++ b) = no_lt a && no_lt b.
Proof. apply forallb_app. Qed.

End RepFacts.

Lemma strip_prefix_app_r (p x y z : str) :
  strip_prefix p x = Some y -> strip_prefix p (x ++ z) = Some (y ++ z).
Proof.
  intros H. apply strip_prefix_Some in H as ->.
  rewrite <- app_assoc. apply strip_prefix_app.
Qed.

Lemma firstn_prefix (a b : str) :
  firstn (length (a ++ b) - length b) (a ++ b) = a.
Proof.
  rewrite length_app, Nat.add_sub, firstn_app, Nat.sub_diag, firstn_all.
  simpl. apply app_nil_r.
Qed.

Lemma firstn_within (n : nat) (a b : str) :
  n <= length a -> firstn n (a ++ b) = firstn n a.
Proof.
  intros H. rewrite firstn_app.
  replace (n - length a) with 0 by lia. simpl. apply app_nil_r.
Qed.

Lemma span_app_rest (p : ascii -> bool) (t rest : str) :
  match rest with c :: _ => p c = false | [] => True end ->
  snd (span p (t ++ rest)) = snd (span p t) ++ rest.
Proof.
  intros H. induction t as [|c t IH]; simpl.
  - destruct rest as [|e rest]; [reflexivity|]. simpl. now rewrite H.
  - destruct (p c); [|reflexivity].
    destruct (span p (t ++ rest)), (span p t). exact IH.
Qed.

(** The scan of the text before [rest], for a matcher that cannot tell
    whether [rest] follows. *)
Lemma scan_before (m : str -> option (nat * str)) (rest : str) :
  m [] = None ->
  (forall c x, m (c :: x ++ rest) = m (c :: x)) ->
  (forall s n t, m s = Some (n, t) -> n <= length s) ->
  forall a skip, skip <= length a ->
    Re.scan m None skip (a ++ rest)
    = Re.scan m None skip a ++ Re.scan m None 0 rest.
Proof.
  intros H0 Hloc Hlen. induction a as [|c a IH]; intros skip Hk.
  - simpl in Hk. replace skip with 0 by lia. simpl. now rewrite H0.
  - destruct skip as [|k]; [|apply IH; simpl in Hk; lia].
    change ((c :: a) ++ rest) with (c :: a ++ rest).
    cbn [Re.scan Re.exhausted Re.dec_limit]. rewrite Hloc.
    destruct (m (c :: a)) as [[[|n] t]|] eqn:E.
    + rewrite IH by lia. now rewrite <- app_assoc.
    + apply Hlen in E. simpl in E. rewrite IH by lia. now rewrite app_assoc.
    + now rewrite IH by lia.
Qed.

(** Text without [<] is passed over by a matcher that needs a tag. *)
Lemma scan_pass (m : str -> option (nat * str)) (x b : str) :
  (forall c t, Ascii.eqb c "<" = false -> m (c :: t) = None) ->
  no_lt x = true ->
  Re.scan m None 0 (x ++ b) = x ++ Re.scan m None 0 b.
Proof.
  intros Hm. induction x as [|c x IH]; intros Hx; [reflexivity|].
  simpl in Hx. apply andb_true_iff in Hx as [Hc Hx].
  apply negb_true_iff in Hc.
  change ((c :: x) ++ b) with (c :: x ++ b).
  cbn [Re.scan Re.exhausted]. rewrite (Hm c _ Hc). now rewrite IH.
Qed.

(** A match of a whole stretch of text leaves its replacement. *)
Lemma scan_hit (m : str -> option (nat * str)) (s new b : str) :
  s <> [] -> m (s ++ b) = Some (length s, new) ->
  Re.scan m None 0 (s ++ b) = new ++ Re.scan m None 0 b.
Proof.
  intros Hs Hm. destruct s as [|c s]; [easy|].
  change ((c :: s) ++ b) with (c :: s ++ b) in *.
  cbn [Re.scan Re.exhausted]. rewrite Hm. simpl length. cbv iota.
  cbn [Re.dec_limit]. now rewrite scan_skip.
Qed.

(** An element in which nothing matches is passed over. *)
Lemma scan_element_miss (m : str -> option (nat * str)) (O w C b : str) :
  (forall c t, Ascii.eqb c "<" = false -> m (c :: t) = None) ->
  tagged O = true -> no_lt w = true -> tagged C = true ->
  m (O ++ w ++ C ++ b) = None -> m (C ++ b) = None ->
  Re.scan m None 0 (O ++ w ++ C ++ b) = O ++ w ++ C ++ Re.scan m None 0 b.
Proof.
  intros Hm HO Hw HC H1 H2.
  destruct O as [|o O]; [discriminate|].
  destruct C as [|c C]; [discriminate|].
  simpl in HO, HC.
  apply andb_true_iff in HO as [_ HO]. apply andb_true_iff in HC as [_ HC].
  change ((o :: O) ++ w ++ (c :: C) ++ b)
    with (o :: O ++ w ++ c :: C ++ b) in *.
  change ((c :: C) ++ b) with (c :: C ++ b) in H2.
  cbn [Re.scan Re.exhausted]. rewrite H1.
  rewrite (app_assoc O w (c :: C ++ b)), scan_pass;
    [|exact Hm|now rewrite no_lt_app, HO, Hw].
  cbn [Re.scan Re.exhausted]. rewrite H2.
  rewrite (scan_pass m C b Hm HC).
  now rewrite <- app_assoc.
Qed.

Lemma opening_tagged (s : str) : opening s = true -> tagged s = true.
Proof.
  destruct s as [|c1 [|c2 s]]; try discriminate. unfold opening, tagged.
  rewrite !andb_true_iff. now intros [[-> _] ->].
Qed.

Lemma closing_tagged (s : str) : closing s = true -> tagged s = true.
Proof.
  destruct s as [|c1 [|c2 s]]; try discriminate. unfold closing, tagged.
  rewrite !andb_true_iff. intros [[-> H2] H3].
  apply Ascii.eqb_eq in H2 as ->. simpl. now rewrite H3.
Qed.

Lemma opening_not_closing (O C x : str) :
  opening O = true -> closing C = true -> strip_prefix O (C ++ x) = None.
Proof.
  destruct O as [|o1 [|o2 O]]; try discriminate.
  destruct C as [|c1 [|c2 C]]; try discriminate.
  unfold opening, closing. rewrite !andb_true_iff.
  intros [[_ Ho] _] [[_ Hc] _]. apply Ascii.eqb_eq in Hc as ->.
  apply negb_true_iff in Ho. cbn [app strip_prefix]. rewrite Ho.
  now destruct (Ascii.eqb o1 c1).
Qed.

Lemma at_open_at_tag (s : str) : at_open s = true -> at_tag s = true.
Proof.
  destruct s as [|c1 [|c2 s]]; simpl; try easy.
  rewrite andb_true_iff. now intros [-> _].
Qed.

Lemma at_open_not_digit (s : str) :
  at_open s = true ->
  match s with c :: _ => Re.digit c = false | [] => True end.
Proof.
  intros H. apply at_open_at_tag in H.
  destruct s as [|c s]; [exact I|]. simpl in H.
  now apply Ascii.eqb_eq in H as ->.
Qed.

Lemma opening_at_open (O x : str) :
  opening O = true -> at_open (O ++ x) = true.
Proof.
  destruct O as [|o1 [|o2 O]]; try discriminate.
  unfold opening. rewrite !andb_true_iff. intros [[H1 H2] _].
  simpl. now rewrite H1, H2.
Qed.

Section Dot0.
Variables O C : str.
Hypothesis HO : opening O = true.
Hypothesis HC : closing C = true.

Local Abbreviation pattern := (tag_dot0_re O C).
Local Abbreviation repl := (tag_dot0_repl O C).

Lemma dot0_needs_open (s : str) :
  strip_prefix O s = None -> Re.re_match pattern repl s = None.
Proof.
  intros H. unfold Re.re_match, Re.match_at, tag_dot0_re.
  cbn [cat_all Re.exec]. now rewrite H.
Qed.

Lemma dot0_needs_tag (c : ascii) (t : str) :
  Ascii.eqb c "<" = false -> Re.re_match pattern repl (c :: t) = None.
Proof.
  clear HC. intros H. apply dot0_needs_open.
  apply opening_tagged in HO.
  destruct O as [|o O']; [discriminate|].
  simpl in HO. apply andb_true_iff in HO as [Ho _].
  apply Ascii.eqb_eq in Ho as ->. cbn [strip_prefix].
  now rewrite Ascii.eqb_sym, H.
Qed.

Lemma dot0_empty : Re.re_match pattern repl [] = None.
Proof.
  clear HC. apply dot0_needs_open.
  destruct O; [discriminate|reflexivity].
Qed.

(** What the pattern does right after the opening tag. *)
Lemma dot0_after_open (t : str) :
  Re.re_match pattern repl (O ++ t)
  = match t with
    | c :: t' =>
        if Re.digit c then
          let r := snd (span Re.digit t') in
          match strip_prefix (lit ".0" ++ C) r with
          | Some s2 =>
              Some (length (O ++ t) - length s2,
                    O ++ firstn (length t - length r) t ++ C)
          | None => None
          end
        else None
    | [] => None
    end.
Proof.
  unfold Re.re_match, Re.match_at, tag_dot0_re, Re.Plus.
  cbn [cat_all Re.exec]. rewrite strip_prefix_app.
  destruct t as [|c t']; [reflexivity|].
  destruct (Re.digit c) eqn:Ec; [|reflexivity].
  rewrite rep_greedy_span.
  - cbv zeta. destruct (strip_prefix (lit ".0" ++ C) _); [|reflexivity].
    unfold Re.expand, tag_dot0_repl. simpl. now rewrite app_nil_r.
  - intros c0 s H. cbn [lit String.list_ascii_of_string app strip_prefix].
    now rewrite (digit_not_dot c0 H).
Qed.

Lemma dot0_bounded (s : str) (n : nat) (t : str) :
  Re.re_match pattern repl s = Some (n, t) -> n <= length s.
Proof.
  destruct (strip_prefix O s) as [t0|] eqn:E.
  - apply strip_prefix_Some in E as ->. rewrite dot0_after_open.
    destruct t0 as [|c t0]; [discriminate|].
    destruct (Re.digit c); [|discriminate]. cbv zeta.
    destruct (strip_prefix _ _); [|discriminate].
    intros [= <- _]. lia.
  - now rewrite (dot0_needs_open s E).
Qed.

(** After the digits, only [.0] and the closing tag will do. *)
Lemma dot0_tail (rest b : str) :
  no_lt rest = true -> str_eqb rest (lit ".0") = false ->
  strip_prefix (lit ".0" ++ C) (rest ++ C ++ b) = None.
Proof.
  intros Hr Hne. apply closing_tagged in HC.
  destruct C as [|c C']; [discriminate|].
  simpl in HC. apply andb_true_iff in HC as [Hc _].
  apply Ascii.eqb_eq in Hc as ->.
  cbn [lit String.list_ascii_of_string app].
  destruct rest as [|c1 [|c2 rest']]; cbn [app strip_prefix].
  - reflexivity.
  - destruct (Ascii.eqb "." c1); reflexivity.
  - destruct (Ascii.eqb "." c1) eqn:E1; [|reflexivity].
    destruct (Ascii.eqb "0" c2) eqn:E2; [|reflexivity].
    apply Ascii.eqb_eq in E1 as <-. apply Ascii.eqb_eq in E2 as <-.
    destruct rest' as [|c3 rest'']; [discriminate|].
    cbn [app strip_prefix]. simpl in Hr.
    destruct (Ascii.eqb c3 "<") eqn:E3; [discriminate|].
    now rewrite Ascii.eqb_sym, E3.
Qed.

(** A failed end of match stays failed when an opening tag follows. *)
Lemma dot0_tail_open (r rest : str) :
  at_open rest = true ->
  strip_prefix (lit ".0" ++ C) r = None ->
  strip_prefix (lit ".0" ++ C) (r ++ rest) = None.
Proof.
  intros Hrest. destruct C as [|c1 [|c2 C']]; try discriminate.
  unfold closing in HC. rewrite !andb_true_iff in HC.
  destruct HC as [[H1 H2] H3].
  apply Ascii.eqb_eq in H1 as ->. apply Ascii.eqb_eq in H2 as ->.
  assert (Hq : no_lt ("/"%char :: C') = true) by (simpl; exact H3).
  remember ("/"%char :: C') as q eqn:Eq.
  cbn [lit String.list_ascii_of_string app].
  destruct r as [|a [|b [|c r']]]; cbn [app strip_prefix].
  - intros _. destruct rest as [|e rest]; [reflexivity|].
    apply at_open_at_tag in Hrest. simpl in Hrest.
    now apply Ascii.eqb_eq in Hrest as ->.
  - intros _. destruct (Ascii.eqb "." a); [|reflexivity].
    destruct rest as [|e rest]; [reflexivity|].
    apply at_open_at_tag in Hrest. simpl in Hrest.
    now apply Ascii.eqb_eq in Hrest as ->.
  - intros _. destruct (Ascii.eqb "." a); [|reflexivity].
    destruct (Ascii.eqb "0" b); [|reflexivity].
    subst q. destruct rest as [|e [|e2 rest]]; cbn [strip_prefix].
    + reflexivity.
    + now destruct (Ascii.eqb "<" e).
    + simpl in Hrest. apply andb_true_iff in Hrest as [_ He].
      apply negb_true_iff in He. rewrite (Ascii.eqb_sym "/" e2), He.
      now destruct (Ascii.eqb "<" e).
  - destruct (Ascii.eqb "." a); [|reflexivity].
    destruct (Ascii.eqb "0" b); [|reflexivity].
    destruct (Ascii.eqb "<" c); [|reflexivity].
    intros H.
    pose proof (strip_prefix_before_tag q r' rest Hq
                  (at_open_at_tag _ Hrest)) as Hb.
    rewrite H in Hb. now destruct (strip_prefix q (r' ++ rest)).
Qed.

(** Whether the pattern matches inside a text does not depend on an
    opening tag that follows the text. *)
Lemma dot0_local (rest : str) (c : ascii) (x : str) :
  at_open rest = true ->
  Re.re_match pattern repl (c :: x ++ rest)
  = Re.re_match pattern repl (c :: x).
Proof.
  intros Hrest.
  destruct (strip_prefix O (c :: x)) as [t|] eqn:E.
  - pose proof (strip_prefix_Some _ _ E) as Ex.
    change (c :: x ++ rest) with ((c :: x) ++ rest).
    rewrite Ex, <- app_assoc, !dot0_after_open.
    destruct t as [|d t].
    + destruct rest as [|e rest]; [reflexivity|].
      simpl. now rewrite (at_open_not_digit _ Hrest).
    + change ((d :: t) ++ rest) with (d :: t ++ rest). cbv iota.
      destruct (Re.digit d); [|reflexivity]. cbv zeta.
      rewrite (span_app_rest Re.digit t rest (at_open_not_digit _ Hrest)).
      pose proof (span_eq Re.digit t) as Ht.
      destruct (strip_prefix (lit ".0" ++ C) (snd (span Re.digit t)))
        as [s2|] eqn:E2.
      * rewrite (strip_prefix_app_r _ _ _ rest E2).
        apply strip_prefix_Some in E2.
        assert (Hl : length (d :: t ++ rest)
                     - length (snd (span Re.digit t) ++ rest)
                     = length (d :: t) - length (snd (span Re.digit t))).
        { cbn [length]. rewrite !length_app. lia. }
        rewrite Hl.
        change (d :: t ++ rest) with ((d :: t) ++ rest).
        rewrite firstn_within by lia.
        do 2 f_equal. rewrite !length_app. cbn [length].
        rewrite ?length_app. lia.
      * now rewrite (dot0_tail_open _ rest Hrest E2).
  - change (c :: x ++ rest) with ((c :: x) ++ rest).
    rewrite (dot0_needs_open _ E). apply dot0_needs_open.
    pose proof (opening_tagged _ HO) as HOt.
    destruct O as [|o O']; [discriminate|].
    simpl in HOt. apply andb_true_iff in HOt as [_ HOt].
    simpl in E |- *. destruct (Ascii.eqb o c); [|reflexivity].
    pose proof (strip_prefix_before_tag O' x rest HOt
                  (at_open_at_tag _ Hrest)) as Hb.
    rewrite E in Hb. now destruct (strip_prefix O' (x ++ rest)).
Qed.

(** The rule on its own element, whatever follows it. *)
Lemma dot0_element (v b : str) :
  no_lt v = true ->
  Re.scan (Re.re_match pattern repl) None 0 ((O ++ v ++ C) ++ b)
  = (O ++ strip_dot0 v ++ C) ++ Re.scan (Re.re_match pattern repl) None 0 b.
Proof.
  intros Hv. unfold strip_dot0.
  pose proof (span_eq Re.digit v) as Heq.
  pose proof (span_all Re.digit v) as Hall.
  pose proof (span_stop Re.digit v) as Hstop.
  destruct (span Re.digit v) as [ds rest]. simpl in Heq, Hall, Hstop.
  pose proof (opening_tagged _ HO) as HOt.
  pose proof (closing_tagged _ HC) as HCt.
  assert (Hrest : no_lt rest = true).
  { rewrite Heq, no_lt_app in Hv. now apply andb_true_iff in Hv. }
  assert (HCd : match rest ++ C ++ b with
                | c :: _ => Re.digit c = false
                | [] => True
                end).
  { destruct rest as [|c rest]; [|exact Hstop].
    destruct C as [|c C']; [discriminate|]. simpl in HCt.
    apply andb_true_iff in HCt as [Hc _].
    now apply Ascii.eqb_eq in Hc as ->. }
  assert (Hmiss : Re.re_match pattern repl (O ++ v ++ C ++ b) = None ->
                  Re.scan (Re.re_match pattern repl) None 0
                    ((O ++ v ++ C) ++ b)
                  = (O ++ v ++ C)
                    ++ Re.scan (Re.re_match pattern repl) None 0 b).
  { intros Hm. rewrite <- !app_assoc.
    apply scan_element_miss; try assumption.
    - apply dot0_needs_tag.
    - apply dot0_needs_open. now apply opening_not_closing. }
  destruct ds as [|d ds].
  - (* no digit at the start *)
    apply Hmiss. rewrite dot0_after_open. simpl in Heq. subst v.
    destruct (rest ++ C ++ b) as [|c t]; [reflexivity|]. now rewrite HCd.
  - simpl in Hall. apply andb_true_iff in Hall as [Hd Hds].
    assert (Hm : Re.re_match pattern repl (O ++ v ++ C ++ b)
                 = match strip_prefix (lit ".0" ++ C) (rest ++ C ++ b) with
                   | Some s2 =>
                       Some (length (O ++ v ++ C ++ b) - length s2,
                             O ++ (d :: ds) ++ C)
                   | None => None
                   end).
    { rewrite dot0_after_open. subst v.
      change (((d :: ds) ++ rest) ++ C ++ b)
        with (d :: (ds ++ rest) ++ C ++ b).
      cbv iota. rewrite Hd. rewrite <- app_assoc. cbv zeta.
      rewrite (span_app Re.digit ds (rest ++ C ++ b) Hds HCd). cbn [snd].
      destruct (strip_prefix (lit ".0" ++ C) (rest ++ C ++ b));
        [|reflexivity].
      change (d :: ds ++ rest ++ C ++ b)
        with ((d :: ds) ++ rest ++ C ++ b).
      now rewrite firstn_prefix. }
    destruct (str_eqb rest (lit ".0")) eqn:Er.
    + apply str_eqb_eq in Er. subst rest.
      rewrite (app_assoc (lit ".0") C b), strip_prefix_app in Hm.
      apply scan_hit.
      * destruct O; [discriminate|easy].
      * rewrite <- !app_assoc. rewrite Hm. f_equal. f_equal.
        rewrite !length_app. lia.
    + rewrite (dot0_tail rest b Hrest Er) in Hm. now apply Hmiss.
Qed.

(** The rule on an element of another name. *)
Lemma dot0_other_element (O' C' w b : str) :
  opening O' = true -> closing C' = true -> no_lt w = true ->
  (forall x, strip_prefix O (O' ++ x) = None) ->
  Re.scan (Re.re_match pattern repl) None 0 ((O' ++ w ++ C') ++ b)
  = (O' ++ w ++ C') ++ Re.scan (Re.re_match pattern repl) None 0 b.
Proof.
  clear HC. intros HO' HC' Hw Hne. rewrite <- !app_assoc.
  apply scan_element_miss.
  - apply dot0_needs_tag.
  - now apply opening_tagged.
  - exact Hw.
  - now apply closing_tagged.
  - apply dot0_needs_open, Hne.
  - apply dot0_needs_open. now apply opening_not_closing.
Qed.

(** The two cases anywhere in a document: after any text [a] and before
    any text [b]. *)
Lemma sub_dot0_here (a v b : str) :
  no_lt v = true ->
  Re.sub pattern repl (a ++ (O ++ v ++ C) ++ b) 0
  = Re.sub pattern repl a 0 ++ (O ++ strip_dot0 v ++ C)
    ++ Re.sub pattern repl b 0.
Proof.
  intros Hv. unfold Re.sub. rewrite scan_before.
  - now rewrite dot0_element.
  - apply dot0_empty.
  - intros c x. apply dot0_local.
    rewrite <- !app_assoc. now apply opening_at_open.
  - apply dot0_bounded.
  - lia.
Qed.

Lemma sub_dot0_there (a O' C' w b : str) :
  opening O' = true -> closing C' = true -> no_lt w = true ->
  (forall x, strip_prefix O (O' ++ x) = None) ->
  Re.sub pattern repl (a ++ (O' ++ w ++ C') ++ b) 0
  = Re.sub pattern repl a 0 ++ (O' ++ w ++ C') ++ Re.sub pattern repl b 0.
Proof.
  intros HO' HC' Hw Hne. unfold Re.sub. rewrite scan_before.
  - now rewrite dot0_other_element.
  - apply dot0_empty.
  - intros c x. apply dot0_local.
    rewrite <- !app_assoc. now apply opening_at_open.
  - apply dot0_bounded.
  - lia.
Qed.

End Dot0.

Lemma strip_dot0_no_lt (v : str) : no_lt v = true -> no_lt (strip_dot0 v) = true.
Proof.
  intros Hv. unfold strip_dot0.
  pose proof (span_eq Re.digit v) as Heq.
  destruct (span Re.digit v) as [ds rest]. simpl in Heq.
  destruct ds as [|d ds]; [exact Hv|].
  destruct (str_eqb rest (lit ".0")); [|exact Hv].
  rewrite Heq, no_lt_app in Hv. now apply andb_true_iff in Hv.
Qed.

Lemma dot0_re_tags (name : String.string) :
  dot0_re name = tag_dot0_re (open_tag name) (close_tag name).
Proof. reflexivity. Qed.

Lemma dot0_repl_tags (name : String.string) :
  dot0_repl name = tag_dot0_repl (open_tag name) (close_tag name).
Proof. reflexivity. Qed.

(** The rule of [name] on an element [name], and on an element [other]. *)
Ltac dot0_here name :=
  rewrite (sub_dot0_here (open_tag name) (close_tag name) eq_refl eq_refl)
    by (assumption || now apply strip_dot0_no_lt).

Ltac dot0_there name other :=
  rewrite (sub_dot0_there (open_tag name) (close_tag name) eq_refl eq_refl
             _ (open_tag other) (close_tag other))
    by (reflexivity || assumption || (now apply strip_dot0_no_lt)
        || (intros; reflexivity)).

(** C6. The clean-up rewrites a Value, Cadence or Watts element whose text
    is digits followed by [.0] to the digits alone and leaves every other
    text of these elements as it is, wherever the element stands in the
    document (after any text [a], before any text [b]): [142.0] becomes
    [142], [142.4] stays. *)
Theorem normalize_numbers_dot0 :
  (forall name a v b,
      In name ["Value"; "Cadence"; "ns3:Watts"] ->
      no_lt v = true ->
      normalize_numbers (a ++ element_text name v ++ b)
      = normalize_numbers a ++ element_text name (strip_dot0 v)
        ++ normalize_numbers b)
  /\ normalize_numbers (lit "<Value>142.0</Value>") = lit "<Value>142</Value>"
  /\ normalize_numbers (lit "<Value>142.4</Value>")
     = lit "<Value>142.4</Value>".
Proof.
  split; [|split; reflexivity].
  intros name a v b Hname Hv. unfold normalize_numbers, element_text.
  cbv zeta. rewrite !dot0_re_tags, !dot0_repl_tags.
  destruct Hname as [<-|[<-|[<-|[]]]].
  - dot0_here "Value". dot0_there "Cadence" "Value".
    dot0_there "ns3:Watts" "Value". reflexivity.
  - dot0_there "Value" "Cadence". dot0_here "Cadence".
    dot0_there "ns3:Watts" "Cadence". reflexivity.
  - dot0_there "Value" "ns3:Watts". dot0_there "Cadence" "ns3:Watts".
    dot0_here "ns3:Watts". reflexivity.
Qed.

(* ================================================================= *)
(** ** The fallback of the serialisation *)

Lemma inject_speeds_total {R : Runtime} (sd : speed_table) (content : str) :
  keys_have_text sd = true ->
  exists rewritten, inject_speeds sd content = Ok rewritten.
Proof.
  unfold inject_speeds, keys_have_text.
  revert content; induction sd as [|[k v] sd IH]; intros content; simpl.
  - intros _. now exists content.
  - destruct k as [t|]; [|discriminate]. intros H.
    unfold inject_step at 1. simpl. now apply IH.
Qed.

(** C9 (amended). When the first parse succeeds, the speed lookup is built
    without an exception and every timestamp in it has text, the
    conversion does not raise; and if the rewritten text then fails to
    parse, what is emitted is the rewritten text itself, with no
    declaration and no indentation. *)
Theorem post_rewrite_fallback {R : Runtime} (content : str) (tree : ET.elem)
  (sd : speed_table) :
  ET_fromstring content = Some tree ->
  build_speed_data tree = Ok sd ->
  keys_have_text sd = true ->
  exists rewritten,
    inject_speeds sd (rewrite_rules content) = Ok rewritten
    /\ convert_tcx_string content = Ok (serialize rewritten)
    /\ (ET_fromstring rewritten = None ->
        convert_tcx_string content = Ok rewritten).
Proof.
  intros Hparse Hsd Hkeys.
  destruct (inject_speeds_total sd (rewrite_rules content) Hkeys)
    as [rewritten Hinj].
  exists rewritten.
  assert (Hc : convert_tcx_string content = Ok (serialize rewritten)).
  { unfold convert_tcx_string, convert_tree. rewrite Hparse. simpl.
    rewrite Hsd. simpl. now rewrite Hinj. }
  repeat split; [exact Hinj|exact Hc|].
  intros Hfail. rewrite Hc. unfold serialize. now rewrite Hfail.
Qed.

(* ================================================================= *)
(** ** The properties on the example documents *)

Section OnSamples.
Import Demo Samples.

(** The example trees are what the parser makes of the example texts. *)
Example sample_trees :
  ET_fromstring ride = Some ride_tree
  /\ ET_fromstring two_laps = Some two_laps_tree
  /\ ET_fromstring two_tracks = Some two_tracks_tree
  /\ ET_fromstring missing_speed = Some missing_speed_tree
  /\ ET_fromstring empty_distance = Some empty_distance_tree.
Proof. repeat split; vm_compute; reflexivity. Qed.

(** The scenario of one lap with three trackpoints at 0, 10 and 25 metres,
    ten seconds apart: speeds 0, 1.0 and 1.5, and no Creator, Resistance or
    lap-level block in the output. *)
Example ride_end_to_end :
  build_speed_data ride_tree = Ok ride_table
  /\ convert_tcx_string ride = Ok ride_converted.
Proof. split; vm_compute; reflexivity. Qed.

Lemma first_sample_speed_zero_witness :
  ET.findall (tcx "Trackpoint") ride_track
  = [] ++ ride_first :: [ride_second; ride_third]
  /\ float_of_text (ET.text ride_distance) = Ok (Float 0%Q)
  /\ exists st,
       for_each trackpoint_step ([] ++ [ride_first]) (track_start []) = Ok st
       /\ dict_get key_eqb (speed_data st) (ET.text ride_time)
          = Some (Int 0).
Proof.
  split; [vm_compute; reflexivity|]. split; [vm_compute; reflexivity|].
  destruct (first_sample_speed_zero (R:=runtime) ride_track [] []
              [ride_second; ride_third] ride_first ride_time ride_distance
              (Float 0%Q))
    as [_ (st & H1 & _ & H2 & _)].
  - vm_compute; reflexivity.
  - intros x [].
  - vm_compute; reflexivity.
  - vm_compute; reflexivity.
  - vm_compute; reflexivity.
  - exists st. split; [exact H1|exact H2].
Defined.

Lemma calculate_speed_zero_elapsed_witness :
  (exists a, parse_time (Some (lit t1)) = Ok a)
  /\ calculate_speed (Float 0%Q) (Float 10%Q) (Some (lit t1)) (Some (lit t1))
     = Ok (Int 0)
  /\ calculate_speed (Float 0%Q) (Float 10%Q) (Some (lit t1))
       (Some (lit "2024-01-01T11:00:10+01:00"))
     = Ok (Int 0).
Proof.
  split; [eexists; vm_compute; reflexivity|]. split.
  - eapply (proj1 calculate_speed_zero_elapsed). vm_compute; reflexivity.
  - eapply (proj1 (proj2 calculate_speed_zero_elapsed));
      vm_compute; reflexivity.
Defined.

(** C3, as stated, fails on [two_laps]: the first track starts at 10:00:10,
    the second lap passes the same timestamp as its second sample, and the
    lookup ends with 0.5 under it, not 0. *)
Lemma first_entry_overwritten :
  In laps_first_track (processed_tracks two_laps_tree)
  /\ sample_key laps_first_point = Some (key_of t1)
  /\ build_speed_data two_laps_tree = Ok laps_table
  /\ dict_get key_eqb laps_table (key_of t1) = Some (Float (1 # 2)%Q)
  /\ ~ (forall sd, build_speed_data two_laps_tree = Ok sd ->
                   dict_get key_eqb sd (key_of t1) = Some (Int 0)).
Proof.
  assert (Hb : build_speed_data two_laps_tree = Ok laps_table)
    by (vm_compute; reflexivity).
  assert (Hg : dict_get key_eqb laps_table (key_of t1)
               = Some (Float (1 # 2)%Q))
    by (vm_compute; reflexivity).
  split; [vm_compute; left; reflexivity|].
  split; [vm_compute; reflexivity|].
  split; [exact Hb|]. split; [exact Hg|].
  intros H. apply H in Hb. rewrite Hg in Hb. discriminate.
Qed.

Lemma speed_table_first_sample_witness :
  length ride_table
  <= length (@nil (key * num Q))
     + length (ET.findall (tcx "Trackpoint") ride_track)
  /\ dict_get key_eqb ride_table (key_of t0) = Some (Int 0).
Proof.
  split.
  - apply (proj1 speed_table_first_sample [] ride_table ride_track).
    vm_compute; reflexivity.
  - apply (proj2 speed_table_first_sample ride_tree ride_table []
             ride_track [] [] ride_first [ride_second; ride_third]
             (key_of t0)).
    + vm_compute; reflexivity.
    + vm_compute; reflexivity.
    + vm_compute; reflexivity.
    + intros x [].
    + vm_compute; reflexivity.
    + intros x [<-|[<-|[]]]; vm_compute; discriminate.
    + intros t x [].
Defined.

(** C7, as stated, fails on [two_tracks]: the second Track of the lap is a
    Track of the document, its trackpoint has a Time and a DistanceMeters,
    and the timestamp is not a key of the lookup. *)
Lemma second_track_ignored :
  In second_track (ET.findall (tcx "Track") two_tracks_tree)
  /\ In second_point (ET.findall (tcx "Trackpoint") second_track)
  /\ sample_key second_point = Some (key_of t1)
  /\ build_speed_data two_tracks_tree = Ok [(key_of t0, Int 0)]
  /\ dict_get key_eqb [(key_of t0, @Int Q 0)] (key_of t1) = None.
Proof.
  split; [vm_compute; right; left; reflexivity|].
  split; [vm_compute; left; reflexivity|].
  repeat split; vm_compute; reflexivity.
Qed.

Lemma first_track_samples_in_lookup_witness :
  exists speed, dict_get key_eqb ride_table (key_of t2) = Some speed.
Proof.
  apply (first_track_samples_in_lookup ride_tree ride_activity ride_lap
           ride_track ride_third ride_table (key_of t2)).
  - vm_compute; reflexivity.
  - vm_compute; left; reflexivity.
  - vm_compute; left; reflexivity.
  - vm_compute; reflexivity.
  - vm_compute; right; right; left; reflexivity.
  - vm_compute; reflexivity.
Defined.

(** C9, as stated, fails on [empty_distance]: the first parse succeeds and
    the conversion ends in an exception, with no output. *)
Lemma parsed_input_can_raise :
  ET_fromstring empty_distance = Some empty_distance_tree
  /\ convert_tcx_string empty_distance = Raise TypeError
  /\ ~ (exists output, convert_tcx_string empty_distance = Ok output).
Proof.
  assert (Hc : convert_tcx_string empty_distance = Raise TypeError)
    by (vm_compute; reflexivity).
  split; [vm_compute; reflexivity|]. split; [exact Hc|].
  intros [output H]. rewrite Hc in H. discriminate.
Qed.

(** On [ride] the rewritten text uses the prefix [ns3], which the document
    does not declare: the second parse fails and the text is emitted as it
    is. *)
Lemma post_rewrite_fallback_witness :
  ET_fromstring ride = Some ride_tree
  /\ ET_fromstring ride_converted = None
  /\ convert_tcx_string ride = Ok ride_converted.
Proof.
  split; [vm_compute; reflexivity|]. split; [vm_compute; reflexivity|].
  destruct (post_rewrite_fallback ride ride_tree ride_table)
    as (rewritten & Hinj & _ & Hfall).
  - vm_compute; reflexivity.
  - vm_compute; reflexivity.
  - vm_compute; reflexivity.
  - assert (Hc : inject_speeds ride_table (rewrite_rules ride)
                 = Ok ride_converted) by (vm_compute; reflexivity).
    rewrite Hc in Hinj. injection Hinj as <-.
    apply Hfall. vm_compute; reflexivity.
Defined.

Lemma removal_rules_idempotent_witness :
  target_form (removal_rules ride) = true
  /\ occurs (lit "<ns3:Speed>") (removal_rules ride) = true
  /\ removal_rules (removal_rules ride) = removal_rules ride.
Proof.
  split; [vm_compute; reflexivity|]. split; [vm_compute; reflexivity|].
  apply removal_rules_idempotent. vm_compute; reflexivity.
Defined.

Lemma normalize_numbers_dot0_witness :
  normalize_numbers
    (lit "<HeartRateBpm>" ++ element_text "Value" (lit "142.0")
     ++ lit "</HeartRateBpm>")
  = normalize_numbers (lit "<HeartRateBpm>")
    ++ element_text "Value" (lit "142")
    ++ normalize_numbers (lit "</HeartRateBpm>")
  /\ normalize_numbers ([] ++ element_text "ns3:Watts" (lit "150.5") ++ [])
     = normalize_numbers [] ++ element_text "ns3:Watts" (lit "150.5")
       ++ normalize_numbers [].
Proof.
  split.
  - apply (proj1 normalize_numbers_dot0 "Value" (lit "<HeartRateBpm>")
             (lit "142.0") (lit "</HeartRateBpm>"));
      [left; reflexivity|reflexivity].
  - apply (proj1 normalize_numbers_dot0 "ns3:Watts" [] (lit "150.5") []);
      [right; right; left; reflexivity|reflexivity].
Defined.

(** C2 on [missing_speed]: the only key of the lookup is 10:00:10, whose
    trackpoint has no Speed element; its replacement runs on into the next
    trackpoint and overwrites the Speed 5.0 of the 10:00:20 sample with 0. *)
Theorem injection_hits_next_sample :
  build_speed_data missing_speed_tree = Ok [(key_of t1, Int 0)]
  /\ rewrite_rules missing_speed
     = document
         (lap (track
                 (point (time t1 ++ distance "0.0")
                  ++ point (time t2
                            ++ ns3_extension "<ns3:Speed>5.0</ns3:Speed>"))))
  /\ inject_speeds [(key_of t1, @Int Q 0)] (rewrite_rules missing_speed)
     = Ok missing_speed_converted
  /\ convert_tcx_string missing_speed = Ok missing_speed_converted.
Proof. repeat split; vm_compute; reflexivity. Qed.

(** C5 on [resistance_lines]: a Resistance element written over several
    lines is still in the text after the rewriting rules. *)
Theorem resistance_over_lines_survives :
  occurs (lit "<Resistance>") resistance_lines = true
  /\ occurs (lit "<Resistance>") (rewrite_rules resistance_lines) = true
  /\ remove_resistance
       (lit "<Resistance>" ++ lit newline ++ lit "40" ++ lit newline
        ++ lit "</Resistance>")
     = lit "<Resistance>" ++ lit newline ++ lit "40" ++ lit newline
       ++ lit "</Resistance>"
  /\ remove_resistance (lit "<Resistance>40</Resistance>") = [].
Proof. repeat split; vm_compute; reflexivity. Qed.

End OnSamples.

(* ================================================================= *)
(** ** Further properties: timestamps *)

Lemma occurs_char_app (z : ascii) (a b : str) :
  occurs [z] (a ++ b) = occurs [z] a || occurs [z] b.
Proof.
  induction a as [|c a IH].
  - simpl. destruct b as [|c b]; [reflexivity|].
    simpl. now destruct (Ascii.eqb z c).
  - change ((c :: a) ++ b) with (c :: a ++ b).
    cbn [occurs strip_prefix]. destruct (Ascii.eqb z c); [reflexivity|].
    exact IH.
Qed.

(** Replacing a one-character literal works piece by piece. *)
Lemma replace_char_app (z : ascii) (new a b : str) :
  Re.replace [z] new (a ++ b) = Re.replace [z] new a ++ Re.replace [z] new b.
Proof.
  unfold Re.replace. apply scan_before.
  - reflexivity.
  - intros c x. unfold Re.lit_match. cbn [strip_prefix].
    now destruct (Ascii.eqb z c).
  - intros s n t H. now apply lit_match_length in H as (-> & _ & H).
  - lia.
Qed.

Lemma replace_zulu_clean (s : str) :
  occurs (lit "Z") (Re.replace (lit "Z") (lit "+00:00") s) = false.
Proof.
  induction s as [|c s IH]; [reflexivity|].
  change (c :: s) with ([c] ++ s).
  change (lit "Z") with ["Z"%char] in *.
  rewrite replace_char_app, occurs_char_app, IH, orb_false_r.
  unfold Re.replace, Re.lit_match.
  cbn [Re.scan Re.exhausted Re.dec_limit strip_prefix].
  destruct (Ascii.eqb "Z" c) eqn:E.
  - reflexivity.
  - cbn [occurs strip_prefix]. now rewrite E.
Qed.

(** X1. [parse_time] reads a timestamp that ends in [Z] as the same
    timestamp with the offset [+00:00] written out, and what it hands to
    [fromisoformat] never contains a [Z]. *)
Theorem parse_time_zulu {R : Runtime} (s : str) :
  parse_time (Some (s ++ lit "Z")) = parse_time (Some (s ++ lit "+00:00"))
  /\ exists t,
       occurs (lit "Z") t = false
       /\ parse_time (Some s) = of_option ValueError (fromisoformat t).
Proof.
  split.
  - unfold parse_time. change (lit "Z") with ["Z"%char].
    now rewrite !replace_char_app.
  - exists (Re.replace (lit "Z") (lit "+00:00") s).
    split; [apply replace_zulu_clean|reflexivity].
Qed.

(* ================================================================= *)
(** ** Further properties: the keys of the lookup *)

Section KeyFacts.
Context {R : Runtime}.

Lemma dict_set_keys (d : speed_table) (k : key) (v : num pyfloat) :
  map fst (dict_set key_eqb d k v) = add_key (map fst d) k.
Proof.
  unfold add_key. induction d as [|[k' v'] d IH]; [reflexivity|].
  cbn [dict_set map fst existsb].
  destruct (key_eqb k' k) eqn:E; cbn [orb map fst].
  - apply key_eqb_eq in E. now subst.
  - rewrite IH. now destruct (existsb _ (map fst d)).
Qed.

Lemma loop_keys (l : list ET.elem) (st st' : loop_state pyfloat) :
  for_each trackpoint_step l st = Ok st' ->
  map fst (speed_data st')
  = fold_left add_key
      (flat_map (fun tp => match sample_key tp with
                           | Some k => [k]
                           | None => []
                           end) l)
      (map fst (speed_data st)).
Proof.
  revert st; induction l as [|tp l IH]; intros st; simpl.
  - now intros [= <-].
  - destruct (trackpoint_step st tp) as [s1|] eqn:E; simpl; [|discriminate].
    intros H. apply IH in H. rewrite H. rewrite fold_left_app.
    apply trackpoint_step_table in E.
    destruct (sample_key tp) as [k|].
    + destruct E as (v & -> & _). simpl. now rewrite dict_set_keys.
    + now subst.
Qed.

Lemma tracks_keys (tracks : list ET.elem) (sd sd' : speed_table) :
  for_each track_speeds tracks sd = Ok sd' ->
  map fst sd' = fold_left add_key (flat_map track_keys tracks) (map fst sd).
Proof.
  revert sd; induction tracks as [|t tracks IH]; intros sd; simpl.
  - now intros [= <-].
  - destruct (track_speeds sd t) as [s1|] eqn:E; simpl; [|discriminate].
    intros H. apply IH in H. rewrite H, fold_left_app.
    apply track_speeds_loop in E as (st & E & <-).
    apply loop_keys in E. now rewrite E.
Qed.

Lemma add_key_In (l : list key) (k x : key) :
  In x (add_key l k) <-> In x l \/ x = k.
Proof.
  unfold add_key. destruct (existsb _ l) eqn:E.
  - split; [now left|]. intros [H| ->]; [exact H|].
    apply existsb_exists in E as (k' & Hin & Hk).
    apply key_eqb_eq in Hk. now subst.
  - rewrite in_app_iff. simpl. intuition.
Qed.

Lemma add_key_NoDup (l : list key) (k : key) :
  NoDup l -> NoDup (add_key l k).
Proof.
  intros H. unfold add_key. destruct (existsb _ l) eqn:E; [exact H|].
  apply NoDup_app; [exact H|repeat constructor; easy|].
  intros x Hx [->|[]].
  assert (existsb (fun k' => key_eqb k' x) l = true); [|congruence].
  apply existsb_exists. exists x. split; [exact Hx|now apply key_eqb_eq].
Qed.

Lemma add_key_length (l : list key) (k : key) :
  length (add_key l k) <= S (length l).
Proof.
  unfold add_key. destruct (existsb _ l); [lia|].
  rewrite length_app. simpl. lia.
Qed.

Lemma fold_add_key (l l0 : list key) :
  (forall x, In x (fold_left add_key l l0) <-> In x l0 \/ In x l)
  /\ (NoDup l0 -> NoDup (fold_left add_key l l0))
  /\ length (fold_left add_key l l0) <= length l0 + length l.
Proof.
  revert l0; induction l as [|k l IH]; intros l0; simpl.
  - split; [tauto|]. split; [tauto|lia].
  - destruct (IH (add_key l0 k)) as (H1 & H2 & H3). split; [|split].
    + intros x. rewrite H1, add_key_In. intuition.
    + intros H. now apply H2, add_key_NoDup.
    + pose proof (add_key_length l0 k). lia.
Qed.

End KeyFacts.

(** X2. The keys of the speed lookup are the timestamps of the samples of
    the processed tracks, without repetition, in the order in which the
    loops first meet them: this is the order in which the injection later
    runs. *)
Theorem speed_table_key_order {R : Runtime} (tree : ET.elem)
  (sd : speed_table) :
  build_speed_data tree = Ok sd ->
  map fst sd = first_occurrences (document_keys tree).
Proof.
  rewrite build_speed_data_tracks. intros H.
  now apply tracks_keys in H.
Qed.

(** X3. No timestamp is twice a key of the lookup, a timestamp is a key
    exactly when a sample of a processed track carries it, and there are
    at most as many entries as such samples. *)
Theorem speed_table_keys_unique {R : Runtime} (tree : ET.elem)
  (sd : speed_table) :
  build_speed_data tree = Ok sd ->
  NoDup (map fst sd)
  /\ (forall k, In k (map fst sd) <-> In k (document_keys tree))
  /\ length sd <= length (document_keys tree).
Proof.
  rewrite build_speed_data_tracks. intros H. apply tracks_keys in H.
  destruct (fold_add_key (document_keys tree) []) as (H1 & H2 & H3).
  change (map fst (@nil (key * num pyfloat))) with (@nil key) in H.
  change (flat_map track_keys (processed_tracks tree))
    with (document_keys tree) in H.
  rewrite <- (length_map fst sd), H. split; [|split].
  - apply H2. constructor.
  - intros k. rewrite H1. simpl. tauto.
  - exact H3.
Qed.

(** X4. When the lookup is built without an exception, [float()] accepted
    the DistanceMeters text of every sample of every processed track. *)
Theorem speed_table_distances_parse {R : Runtime}
  (tree track tp time_elem dist_elem : ET.elem) (sd : speed_table) :
  build_speed_data tree = Ok sd ->
  In track (processed_tracks tree) ->
  In tp (ET.findall (tcx "Trackpoint") track) ->
  ET.find (tcx "Time") tp = Some time_elem ->
  ET.find (tcx "DistanceMeters") tp = Some dist_elem ->
  exists s x,
    ET.text dist_elem = Some s /\ float_parse s = Some x.
Proof.
  rewrite build_speed_data_tracks. intros Hb Htrack Htp Ht Hd.
  apply in_split in Htrack as (before & after & Hs). rewrite Hs in Hb.
  apply for_each_split in Hb as (sd1 & sd2 & _ & Hb & _).
  apply track_speeds_loop in Hb as (st & Hb & _).
  apply in_split in Htp as (pre & post & Hsplit). rewrite Hsplit in Hb.
  apply for_each_split in Hb as (s1 & s2 & _ & Hstep & _).
  unfold trackpoint_step in Hstep. rewrite Ht, Hd in Hstep.
  unfold float_of_text in Hstep.
  destruct (ET.text dist_elem) as [s|]; [|discriminate].
  destruct (float_parse s) as [x|] eqn:E; [|discriminate].
  now exists s, x.
Qed.

(* ================================================================= *)
(** ** Further properties: the exceptions of the conversion *)

Section RaiseFacts.
Context {R : Runtime}.

Lemma for_each_raises {A S} (body : S -> A -> result S) (P : exn -> Prop) :
  (forall s a e, body s a = Raise e -> P e) ->
  forall l s e, for_each body l s = Raise e -> P e.
Proof.
  intros Hbody. induction l as [|a l IH]; intros s e; simpl; [discriminate|].
  destruct (body s a) as [s1|e1] eqn:E; simpl.
  - apply IH.
  - intros [= <-]. now apply (Hbody s a).
Qed.

Lemma calculate_speed_raises (pd cd : num pyfloat) (pt ct : option str)
  (e : exn) :
  calculate_speed pd cd pt ct = Raise e -> data_error e.
Proof.
  unfold calculate_speed, data_error. destruct pt as [t|]; [|discriminate].
  destruct (parse_time ct) as [c|e1] eqn:Hc; cbn [bind].
  2:{ intros [= <-]. apply parse_time_raises in Hc. tauto. }
  destruct (parse_time (Some t)) as [p|e1] eqn:Hp; cbn [bind].
  2:{ intros [= <-]. apply parse_time_raises in Hp. tauto. }
  destruct (datetime_sub c p) as [d|e1] eqn:Hd; cbn [bind].
  2:{ intros [= <-]. unfold datetime_sub in Hd.
      destruct (utcoffset c), (utcoffset p); inversion Hd; tauto. }
  cbv zeta. destruct (num_is_zero (Float (total_seconds d))) eqn:E;
    [discriminate|].
  unfold truediv. now rewrite E.
Qed.

Lemma trackpoint_step_raises (st : loop_state pyfloat) (tp : ET.elem)
  (e : exn) :
  trackpoint_step st tp = Raise e -> data_error e.
Proof.
  unfold trackpoint_step.
  destruct (ET.find (tcx "Time") tp); [|discriminate].
  destruct (ET.find (tcx "DistanceMeters") tp) as [de|]; [|discriminate].
  destruct (float_of_text (ET.text de)) as [d|e1] eqn:Hf; cbn [bind].
  - destruct (calculate_speed _ _ _ _) as [v|e1] eqn:Hs; cbn [bind];
      [discriminate|].
    intros [= <-]. now apply calculate_speed_raises in Hs.
  - intros [= <-]. unfold float_of_text, data_error in *.
    destruct (ET.text de) as [s|]; [|inversion Hf; tauto].
    destruct (float_parse s); inversion Hf; tauto.
Qed.

Lemma build_speed_data_raises (tree : ET.elem) (e : exn) :
  build_speed_data tree = Raise e -> data_error e.
Proof.
  rewrite build_speed_data_tracks.
  apply (for_each_raises track_speeds data_error).
  intros sd track e1. unfold track_speeds.
  destruct (for_each trackpoint_step _ _) as [st|e2] eqn:E; cbn [bind];
    [discriminate|].
  intros [= <-]. revert E.
  apply (for_each_raises trackpoint_step data_error).
  apply trackpoint_step_raises.
Qed.

Lemma inject_speeds_raises (sd : speed_table) (content : str) (e : exn) :
  inject_speeds sd content = Raise e -> data_error e.
Proof.
  apply (for_each_raises inject_step data_error).
  intros s [k v] e1. unfold inject_step, data_error. simpl.
  destruct k; [discriminate|]. intros [= <-]. tauto.
Qed.

End RaiseFacts.

(** X5. The conversion ends in [ParseError] exactly when the input text
    does not parse; every other exception it can end in comes from the
    data ([ValueError], [TypeError] or [AttributeError]), and it never ends
    in [ZeroDivisionError]. *)
Theorem conversion_exceptions {R : Runtime} (content : str) :
  (convert_tcx_string content = Raise ParseError
   <-> ET_fromstring content = None)
  /\ (forall e, convert_tcx_string content = Raise e ->
                e = ParseError \/ data_error e)
  /\ convert_tcx_string content <> Raise ZeroDivisionError.
Proof.
  assert (Hall : forall e, convert_tcx_string content = Raise e ->
                           (e = ParseError /\ ET_fromstring content = None)
                           \/ (ET_fromstring content <> None
                               /\ data_error e)).
  { intros e. unfold convert_tcx_string, convert_tree.
    destruct (ET_fromstring content) as [tree|]; simpl.
    - destruct (build_speed_data tree) as [sd|e1] eqn:Hb; cbn [bind].
      + destruct (inject_speeds sd (rewrite_rules content)) as [c|e1] eqn:Hi;
          cbn [bind]; [discriminate|].
        intros [= <-]. right. split; [discriminate|].
        now apply inject_speeds_raises in Hi.
      + intros [= <-]. right. split; [discriminate|].
        now apply build_speed_data_raises in Hb.
    - intros [= <-]. now left. }
  split; [split|split].
  - intros H. apply Hall in H as [[_ H]|[_ H]]; [exact H|].
    unfold data_error in H. destruct H as [H|[H|H]]; discriminate.
  - intros H. unfold convert_tcx_string. now rewrite H.
  - intros e H. apply Hall in H as [[H _]|[_ H]]; [now left|now right].
  - intros H. apply Hall in H as [[H _]|[_ H]]; [discriminate|].
    unfold data_error in H. destruct H as [H|[H|H]]; discriminate.
Qed.

(* ================================================================= *)
(** ** Further properties: removing elements *)

Section SpanFacts.

Lemma suffix_refl (s : str) : suffix s s.
Proof. destruct s; now left. Qed.

Lemma suffix_tail (t s : str) (c : ascii) : suffix t s -> suffix t (c :: s).
Proof. intros H. now right. Qed.

Lemma occurs_suffix (p s t : str) :
  occurs p s = false -> suffix t s -> strip_prefix p t = None.
Proof.
  induction s as [|c s IH]; simpl.
  - destruct (strip_prefix p []) eqn:E; [discriminate|].
    now intros _ [->|[]].
  - destruct (strip_prefix p (c :: s)) eqn:E; [discriminate|].
    intros H [->|Ht]; [exact E|now apply IH].
Qed.

(** A tag-shaped literal that does not start inside [t] does not start
    there either when another tag follows [t]. *)
Lemma strip_prefix_tag_local (p t rest : str) :
  tagged p = true -> at_tag rest = true -> t <> [] ->
  strip_prefix p t = None -> strip_prefix p (t ++ rest) = None.
Proof.
  intros Hp Hr Ht H. destruct t as [|c t]; [easy|].
  destruct p as [|x p]; [discriminate|].
  simpl in Hp. apply andb_true_iff in Hp as [_ Hp].
  simpl in H |- *. destruct (Ascii.eqb x c); [|reflexivity].
  pose proof (strip_prefix_before_tag p t rest Hp Hr) as Hb.
  rewrite H in Hb. now destruct (strip_prefix p (t ++ rest)).
Qed.

Lemma tagged_at_tag (p x : str) : tagged p = true -> at_tag (p ++ x) = true.
Proof.
  destruct p as [|c p]; [discriminate|]. simpl.
  rewrite andb_true_iff. now intros [-> _].
Qed.

(** A lazy repetition runs on while its continuation fails. *)
Lemma rep_lazy_skip {A} (p : ascii -> bool) (k : str -> option A)
  (x rest : str) :
  forallb p x = true ->
  (forall t, suffix t x -> t <> [] -> k (t ++ rest) = None) ->
  Re.rep_lazy p k (x ++ rest) = Re.rep_lazy p k rest.
Proof.
  induction x as [|c x IH]; intros Hp Hk; [reflexivity|].
  simpl in Hp. apply andb_true_iff in Hp as [Hc Hp].
  change ((c :: x) ++ rest) with (c :: x ++ rest).
  cbn [Re.rep_lazy].
  change (c :: x ++ rest) with ((c :: x) ++ rest).
  rewrite (Hk (c :: x) (suffix_refl _)) by easy.
  rewrite Hc. apply IH; [exact Hp|].
  intros t Ht. apply Hk. now apply suffix_tail.
Qed.

(** The scan passes over a text in which no match starts. *)
Lemma scan_prefix_miss (m : str -> option (nat * str)) (limit : option nat)
  (a rest : str) :
  (forall t, suffix t a -> t <> [] -> m (t ++ rest) = None) ->
  Re.scan m limit 0 (a ++ rest) = a ++ Re.scan m limit 0 rest.
Proof.
  induction a as [|c a IH]; intros Hm; [reflexivity|].
  change ((c :: a) ++ rest) with (c :: a ++ rest).
  cbn [Re.scan].
  destruct (Re.exhausted limit) eqn:E.
  - destruct rest as [|r rest]; simpl; rewrite E; reflexivity.
  - change (c :: a ++ rest) with ((c :: a) ++ rest).
    rewrite (Hm (c :: a) (suffix_refl _)) by easy.
    change ((c :: a) ++ Re.scan m limit 0 rest)
      with (c :: a ++ Re.scan m limit 0 rest).
    f_equal. apply IH. intros t Ht. apply Hm. now apply suffix_tail.
Qed.

Lemma lazy_span_needs_open (O C : str) (p : ascii -> bool)
  (repl : Re.template) (s : str) :
  strip_prefix O s = None ->
  Re.re_match (lazy_span_re O p C) repl s = None.
Proof.
  intros H. unfold Re.re_match, Re.match_at, lazy_span_re.
  cbn [cat_all Re.exec]. now rewrite H.
Qed.

(** The pattern [O.*?C] on [OxC] when [C] does not occur earlier. *)
Lemma lazy_span_match (O C : str) (p : ascii -> bool) (x b : str) :
  C <> [] -> forallb p x = true ->
  (forall t, suffix t x -> t <> [] -> strip_prefix C (t ++ C ++ b) = None) ->
  Re.re_match (lazy_span_re O p C) [] ((O ++ x ++ C) ++ b)
  = Some (length (O ++ x ++ C), []).
Proof.
  intros HC Hp Hx. unfold Re.re_match, Re.match_at, lazy_span_re.
  cbn [cat_all Re.exec]. rewrite <- !app_assoc, strip_prefix_app.
  rewrite rep_lazy_skip; [|exact Hp|].
  - destruct C as [|c C']; [easy|].
    + change ((c :: C') ++ b) with (c :: C' ++ b). cbn [Re.rep_lazy].
      change (c :: C' ++ b) with ((c :: C') ++ b).
      rewrite strip_prefix_app. cbn [Re.expand flat_map].
      do 2 f_equal. rewrite !length_app. lia.
  - intros t Ht Hne. now rewrite (Hx t Ht Hne).
Qed.

(** Removing with [O.*?C]: the first [O] of a text and everything up to
    the next [C] goes. *)
Lemma lazy_span_removes (O C : str) (p : ascii -> bool) (a x b : str) :
  tagged O = true -> tagged C = true ->
  occurs O a = false -> occurs C x = false -> forallb p x = true ->
  Re.sub (lazy_span_re O p C) [] (a ++ O ++ x ++ C ++ b) 0
  = a ++ Re.sub (lazy_span_re O p C) [] b 0.
Proof.
  intros HO HC Ha Hx Hp. unfold Re.sub.
  rewrite scan_prefix_miss.
  - f_equal. rewrite (app_assoc x C b), (app_assoc O (x ++ C) b).
    rewrite scan_hit with (new := []); [reflexivity| |].
    + destruct O; [discriminate|easy].
    + apply lazy_span_match;
        [destruct C; [discriminate|easy]|exact Hp|].
      intros t Ht Hne. apply strip_prefix_tag_local; try assumption.
      * now apply tagged_at_tag.
      * now apply (occurs_suffix C x).
  - intros t Ht Hne. apply lazy_span_needs_open.
    apply strip_prefix_tag_local; try assumption.
    + now apply tagged_at_tag.
    + now apply (occurs_suffix O a).
Qed.

End SpanFacts.

(** X6. A Creator element is removed with everything in it, line breaks
    and nested elements included: the first [<Creator>] of the text and
    all that follows up to the next [</Creator>]. *)
Theorem remove_creator_element (a x b : str) :
  occurs (lit "<Creator>") a = false ->
  occurs (lit "</Creator>") x = false ->
  remove_creator (a ++ lit "<Creator>" ++ x ++ lit "</Creator>" ++ b)
  = a ++ remove_creator b.
Proof.
  intros Ha Hx.
  apply (lazy_span_removes (lit "<Creator>") (lit "</Creator>") Re.any);
    try reflexivity; try assumption.
  now apply forallb_forall.
Qed.

(** X7. A Resistance element whose content has no line break is removed:
    the first [<Resistance>] of the text and all that follows up to the
    next [</Resistance>]. *)
Theorem remove_resistance_element (a x b : str) :
  occurs (lit "<Resistance>") a = false ->
  occurs (lit "</Resistance>") x = false ->
  forallb Re.dot x = true ->
  remove_resistance
    (a ++ lit "<Resistance>" ++ x ++ lit "</Resistance>" ++ b)
  = a ++ remove_resistance b.
Proof.
  intros Ha Hx Hp.
  now apply (lazy_span_removes (lit "<Resistance>") (lit "</Resistance>")
               Re.dot).
Qed.

(* ================================================================= *)
(** ** Further properties: the tags the namespace step leaves *)

Section AbsentFacts.

Lemma tagged_inv (p : str) :
  tagged p = true -> exists p', p = "<"%char :: p' /\ no_lt p' = true.
Proof.
  destruct p as [|c p]; [discriminate|]. simpl.
  rewrite andb_true_iff, Ascii.eqb_eq. intros [-> H]. now exists p.
Qed.

Lemma occurs_cons (p s : str) (c : ascii) :
  occurs p (c :: s)
  = match strip_prefix p (c :: s) with
    | Some _ => true
    | None => occurs p s
    end.
Proof. reflexivity. Qed.

(** A tag-shaped literal does not start in a text without [<]. *)
Lemma occurs_pass (p x Y : str) :
  tagged p = true -> no_lt x = true -> occurs p (x ++ Y) = occurs p Y.
Proof.
  intros Hp. apply tagged_inv in Hp as (p' & -> & _).
  induction x as [|c x IH]; [reflexivity|].
  simpl no_lt. rewrite andb_true_iff, negb_true_iff. intros [Hc Hx].
  change ((c :: x) ++ Y) with (c :: x ++ Y). rewrite occurs_cons.
  cbn [strip_prefix]. rewrite Ascii.eqb_sym, Hc. now apply IH.
Qed.

(** Where the rest of a literal does not match in a text, it does not
    match in the rewritten text. *)
Lemma strip_prefix_scan_miss (old new : str) :
  tagged old = true -> tagged new = true ->
  forall p s, no_lt p = true -> strip_prefix p s = None ->
    strip_prefix p (Re.scan (Re.lit_match old new) None 0 s) = None.
Proof.
  intros Ho Hn.
  apply tagged_inv in Ho as (old' & -> & _).
  apply tagged_inv in Hn as (new' & -> & _).
  induction p as [|x p IH]; intros s Hp H; [discriminate|].
  simpl in Hp. apply andb_true_iff in Hp as [Hx Hp].
  apply negb_true_iff in Hx.
  destruct s as [|y s]; [reflexivity|].
  cbn [Re.scan Re.exhausted].
  destruct (Re.lit_match ("<"%char :: old') ("<"%char :: new') (y :: s))
    as [[n t]|] eqn:E.
  - apply lit_match_length in E as (-> & -> & _).
    simpl length. cbv iota. cbn [app strip_prefix]. now rewrite Hx.
  - cbn [strip_prefix] in H |- *.
    destruct (Ascii.eqb x y); [now apply IH|reflexivity].
Qed.

(** A tag-shaped literal that starts nowhere in the copied parts of a
    text, nor in the replacement, starts nowhere in the rewritten text. *)
Lemma occurs_scan (p old new : str) :
  tagged p = true -> tagged old = true -> tagged new = true ->
  (forall Y, strip_prefix p (new ++ Y) = None) ->
  forall s,
    (forall t, suffix t s -> Re.lit_match old new t = None ->
               strip_prefix p t = None) ->
    forall skip,
      occurs p (Re.scan (Re.lit_match old new) None skip s) = false.
Proof.
  intros Hp Ho Hn Hnew.
  pose proof (tagged_inv _ Hp) as (p' & Ep & Hp').
  pose proof (tagged_inv _ Ho) as (old' & Eo & _).
  pose proof (tagged_inv _ Hn) as (new' & En & Hn').
  induction s as [|c s IH]; intros Hs skip.
  - subst p old. reflexivity.
  - destruct skip as [|k].
    + cbn [Re.scan Re.exhausted].
      destruct (Re.lit_match old new (c :: s)) as [[n t]|] eqn:E.
      * apply lit_match_length in E as (-> & -> & _).
        replace (length old) with (S (length old'))
          by (rewrite Eo; reflexivity).
        cbv iota. cbn [Re.dec_limit].
        assert (H : forall Y, occurs p (new ++ Y) = occurs p Y).
        { intros Y. rewrite En.
          change (("<"%char :: new') ++ Y) with ("<"%char :: new' ++ Y).
          rewrite occurs_cons.
          change ("<"%char :: new' ++ Y) with (("<"%char :: new') ++ Y).
          rewrite <- En, Hnew. now apply occurs_pass. }
        rewrite H. apply IH. intros t Ht. apply Hs. now right.
      * rewrite occurs_cons.
        assert (H : strip_prefix p (c :: Re.scan (Re.lit_match old new)
                                           None 0 s) = None).
        { pose proof (Hs (c :: s) (suffix_refl _) E) as H0.
          rewrite Ep in H0 |- *. cbn [strip_prefix] in H0 |- *.
          destruct (Ascii.eqb "<" c); [|reflexivity].
          now apply strip_prefix_scan_miss. }
        rewrite H. apply IH. intros t Ht. apply Hs. now right.
    + cbn [Re.scan]. apply IH. intros t Ht. apply Hs. now right.
Qed.

(** After [s.replace(old, new)], [old] occurs no more. *)
Lemma replace_removes (old new s : str) :
  tagged old = true -> tagged new = true ->
  (forall Y, strip_prefix old (new ++ Y) = None) ->
  occurs old (Re.replace old new s) = false.
Proof.
  intros Ho Hn Hnew. unfold Re.replace.
  apply occurs_scan; try assumption.
  intros t _. unfold Re.lit_match.
  now destruct (strip_prefix old t).
Qed.

(** A literal that did not occur does not occur after a replacement. *)
Lemma replace_keeps_absent (p old new s : str) :
  tagged p = true -> tagged old = true -> tagged new = true ->
  (forall Y, strip_prefix p (new ++ Y) = None) ->
  occurs p s = false ->
  occurs p (Re.replace old new s) = false.
Proof.
  intros Hp Ho Hn Hnew Hs. unfold Re.replace.
  apply occurs_scan; try assumption.
  intros t Ht _. now apply (occurs_suffix p s).
Qed.

End AbsentFacts.

Ltac absent_after_replace :=
  repeat first
    [ apply replace_removes;
        [reflexivity|reflexivity|intros; reflexivity]
    | apply replace_keeps_absent;
        [reflexivity|reflexivity|reflexivity|intros; reflexivity|] ].

(** X8. The text the namespace step returns holds none of the six tags it
    rewrites: no [<TPX ...>] with the inline namespace, no [</TPX>],
    [<Speed>], [</Speed>], [<Watts>] or [</Watts>], whatever the input. *)
Theorem fix_namespaces_leaves_none (content : str) :
  occurs tpx_open (fix_namespaces content) = false
  /\ occurs (lit "</TPX>") (fix_namespaces content) = false
  /\ occurs (lit "<Speed>") (fix_namespaces content) = false
  /\ occurs (lit "</Speed>") (fix_namespaces content) = false
  /\ occurs (lit "<Watts>") (fix_namespaces content) = false
  /\ occurs (lit "</Watts>") (fix_namespaces content) = false.
Proof.
  unfold fix_namespaces. cbv zeta. rewrite sub_lit.
  repeat split; absent_after_replace.
Qed.

(* ================================================================= *)
(** ** Further properties: injecting the speeds *)

Section InjectFacts.
Context {R : Runtime}.

Lemma suffix_app (x s : str) : suffix s (x ++ s).
Proof.
  induction x as [|c x IH]; [apply suffix_refl|now right].
Qed.

Lemma suffix_trans (u t s : str) : suffix u t -> suffix t s -> suffix u s.
Proof.
  induction s as [|c s IH]; intros Hu [->|Ht]; try assumption; [easy|].
  right. now apply IH.
Qed.

Lemma no_match_suffix (m : str -> option (nat * str)) (s : str) :
  (forall t, suffix t s -> m t = None) -> no_match m s.
Proof.
  induction s as [|c s IH]; intros H; (split; [apply H, suffix_refl|]).
  - exact I.
  - apply IH. intros t Ht. apply H. now right.
Qed.

Lemma rep_lazy_none {A} (p : ascii -> bool) (k : str -> option A) (s : str) :
  (forall u, suffix u s -> k u = None) -> Re.rep_lazy p k s = None.
Proof.
  induction s as [|c s IH]; intros H; cbn [Re.rep_lazy];
    rewrite (H _ (suffix_refl _)); [reflexivity|].
  destruct (p c); [|reflexivity].
  apply IH. intros u Hu. apply H. now right.
Qed.

Lemma speed_re_miss (time_str : str) (speed : Py.num pyfloat) (content t : str) :
  occurs (time_tag time_str) content = false
  \/ occurs (lit "<ns3:Speed>") content = false ->
  suffix t content ->
  Re.re_match (speed_re time_str) (speed_repl speed) t = None.
Proof.
  intros H Ht. unfold Re.re_match, Re.match_at, speed_re.
  cbn [cat_all Re.exec].
  fold (time_tag time_str).
  destruct (strip_prefix (time_tag time_str) t) as [t'|] eqn:E;
    [|reflexivity].
  destruct H as [H|H].
  - now rewrite (occurs_suffix _ _ _ H Ht) in E.
  - rewrite rep_lazy_none; [reflexivity|].
    intros u Hu.
    assert (Hc : suffix u content).
    { apply (suffix_trans _ t'); [exact Hu|].
      apply (suffix_trans _ t); [|exact Ht].
      apply strip_prefix_Some in E as ->. apply suffix_app. }
    now rewrite (occurs_suffix _ _ _ H Hc).
Qed.

End InjectFacts.

(** X9. Injecting the speed of a timestamp changes nothing in a text that
    does not hold [<Time>T</Time>] for it, or that holds no [<ns3:Speed>]
    at all. *)
Theorem inject_step_no_target {R : Runtime} (content time_str : str)
  (speed : Py.num pyfloat) :
  occurs (time_tag time_str) content = false
  \/ occurs (lit "<ns3:Speed>") content = false ->
  inject_step content (Some time_str, speed) = Ok content.
Proof.
  intros H. unfold inject_step. cbn [fst snd]. f_equal.
  unfold Re.sub. apply scan_no_match, no_match_suffix.
  intros t Ht. now apply (speed_re_miss time_str speed content).
Qed.

Section InjectHit.
Context {R : Runtime}.

Lemma strip_prefix_cat (p q s : str) :
  strip_prefix (p ++ q) s
  = match strip_prefix p s with
    | Some s' => strip_prefix q s'
    | None => None
    end.
Proof.
  revert s; induction p as [|x p IH]; intros s; [reflexivity|].
  destruct s as [|y s]; cbn [app strip_prefix]; [reflexivity|].
  destruct (Ascii.eqb x y); [apply IH|reflexivity].
Qed.

(** A tag-shaped literal that matches across the start of a following tag
    matches before it. *)
Lemma tag_prefix_split (p t rest s' : str) :
  tagged p = true -> at_tag rest = true -> t <> [] ->
  strip_prefix p (t ++ rest) = Some s' ->
  exists t', strip_prefix p t = Some t' /\ s' = t' ++ rest.
Proof.
  intros Hp Hr Ht H. destruct (strip_prefix p t) as [t'|] eqn:E.
  - exists t'. split; [reflexivity|].
    rewrite (strip_prefix_app_r _ _ _ rest E) in H. congruence.
  - rewrite (strip_prefix_tag_local p t rest Hp Hr Ht E) in H. discriminate.
Qed.

(** [<Time>T</Time>] does not start in a text that does not hold it, also
    when the text is followed by [<Time>T</Time>]. *)
Lemma time_tag_local (time_str a rest : str) :
  no_lt time_str = true -> occurs (time_tag time_str) a = false ->
  forall t, suffix t a -> t <> [] ->
    strip_prefix (time_tag time_str) (t ++ time_tag time_str ++ rest) = None.
Proof.
  intros HT Ha t Ht Hne.
  pose proof (occurs_suffix _ _ _ Ha Ht) as Hn.
  unfold time_tag in Hn |- * at 1.
  rewrite app_assoc, strip_prefix_cat in Hn |- *.
  destruct (strip_prefix (lit "<Time>" ++ time_str)
              (t ++ time_tag time_str ++ rest)) as [s'|] eqn:E;
    [|reflexivity].
  assert (HP : tagged (lit "<Time>" ++ time_str) = true).
  { simpl. exact HT. }
  assert (Hr : at_tag (time_tag time_str ++ rest) = true) by reflexivity.
  destruct (tag_prefix_split _ _ _ _ HP Hr Hne E) as (t' & E' & ->).
  rewrite E' in Hn. destruct t' as [|c t']; [reflexivity|].
  now apply strip_prefix_tag_local.
Qed.

Lemma rep_greedy_all {A} (p : ascii -> bool) (k : str -> option A)
  (v rest : str) (r : A) :
  forallb p v = true -> Re.rep_greedy p k rest = Some r ->
  Re.rep_greedy p k (v ++ rest) = Some r.
Proof.
  induction v as [|c v IH]; intros Hv Hk; [exact Hk|].
  simpl in Hv. apply andb_true_iff in Hv as [Hc Hv].
  change ((c :: v) ++ rest) with (c :: v ++ rest).
  cbn [Re.rep_greedy]. now rewrite Hc, (IH Hv Hk).
Qed.

Lemma rep_lazy_now {A} (p : ascii -> bool) (k : str -> option A) (s : str)
  (r : A) :
  k s = Some r -> Re.rep_lazy p k s = Some r.
Proof. intros H. destruct s; cbn [Re.rep_lazy]; now rewrite H. Qed.

Lemma speed_re_match (time_str mid v b : str) (speed : Py.num pyfloat) :
  occurs (lit "<ns3:Speed>") mid = false ->
  v <> [] -> forallb Re.digit_or_dot v = true ->
  Re.re_match (speed_re time_str) (speed_repl speed)
    ((time_tag time_str ++ mid ++ lit "<ns3:Speed>" ++ v ++ lit "<") ++ b)
  = Some (length (time_tag time_str ++ mid ++ lit "<ns3:Speed>" ++ v
                  ++ lit "<"),
          time_tag time_str ++ mid ++ lit "<ns3:Speed>"
          ++ format_num speed ++ lit "<").
Proof.
  intros Hm Hne Hv. unfold Re.re_match, Re.match_at, speed_re.
  cbn [cat_all Re.exec Re.Plus]. fold (time_tag time_str).
  rewrite <- !app_assoc, strip_prefix_app.
  rewrite rep_lazy_skip.
  - destruct v as [|d v]; [easy|].
    simpl in Hv. apply andb_true_iff in Hv as [Hd Hv].
    erewrite rep_lazy_now.
    2:{ rewrite strip_prefix_app.
        change ((d :: v) ++ lit "<" ++ b) with (d :: v ++ "<"%char :: b).
        cbv iota. rewrite Hd. apply rep_greedy_all; [exact Hv|].
        cbn [Re.rep_greedy]. 
        change (Re.digit_or_dot "<") with false. cbv iota.
        change (strip_prefix (lit "<") ("<"%char :: b)) with (Some b).
        cbv iota. reflexivity. }
    cbv iota beta.
    cbn [Re.expand speed_repl flat_map Re.group Nat.eqb].
    change ("<"%char :: b) with (lit "<" ++ b).
    rewrite (firstn_prefix (lit "<") b).
    change (d :: v ++ lit "<" ++ b) with ((d :: v) ++ lit "<" ++ b).
    set (X := (d :: v) ++ lit "<" ++ b).
    rewrite (app_assoc mid _ X), (app_assoc (time_tag time_str) _ X).
    rewrite firstn_prefix. subst X.
    rewrite <- !app_assoc, app_nil_r. do 2 f_equal.
    rewrite !length_app. lia.
  - now apply forallb_forall.
  - intros t Ht Hn.
    rewrite (strip_prefix_tag_local (lit "<ns3:Speed>") t); try easy.
    now apply (occurs_suffix _ mid).
Qed.

Lemma scan_exhausted (m : str -> option (nat * str)) (x b : str) :
  Re.scan m (Some 0) (length x) (x ++ b) = b.
Proof.
  rewrite scan_skip. now destruct b.
Qed.

(** With [count=1], the first match is replaced and the rest is copied. *)
Lemma scan_hit_once (m : str -> option (nat * str)) (s new b : str) :
  s <> [] -> m (s ++ b) = Some (length s, new) ->
  Re.scan m (Some 1) 0 (s ++ b) = new ++ b.
Proof.
  intros Hs Hm. destruct s as [|c s]; [easy|].
  change ((c :: s) ++ b) with (c :: s ++ b) in *.
  cbn [Re.scan Re.exhausted]. rewrite Hm. simpl length. cbv iota.
  cbn [Re.dec_limit pred]. now rewrite scan_exhausted.
Qed.

End InjectHit.

(** X10. Injecting the speed of a timestamp: at the first [<Time>T</Time>]
    of the text, the number that follows the next [<ns3:Speed>] - whatever
    lies between the two - is replaced by the speed, and nothing else
    changes. *)
Theorem inject_step_sets_speed {R : Runtime} (a time_str mid v b : str)
  (speed : Py.num pyfloat) :
  no_lt time_str = true ->
  occurs (time_tag time_str) a = false ->
  occurs (lit "<ns3:Speed>") mid = false ->
  v <> [] -> forallb Re.digit_or_dot v = true ->
  inject_step
    (a ++ time_tag time_str ++ mid ++ lit "<ns3:Speed>" ++ v ++ lit "<" ++ b)
    (Some time_str, speed)
  = Ok (a ++ time_tag time_str ++ mid ++ lit "<ns3:Speed>"
        ++ format_num speed ++ lit "<" ++ b).
Proof.
  intros HT Ha Hm Hne Hv. unfold inject_step. cbn [fst snd]. f_equal.
  unfold Re.sub. rewrite scan_prefix_miss.
  - f_equal.
    replace (time_tag time_str ++ mid ++ lit "<ns3:Speed>" ++ v ++ lit "<"
             ++ b)
      with ((time_tag time_str ++ mid ++ lit "<ns3:Speed>" ++ v ++ lit "<")
            ++ b) by now rewrite <- !app_assoc.
    rewrite scan_hit_once
      with (new := time_tag time_str ++ mid ++ lit "<ns3:Speed>"
                   ++ format_num speed ++ lit "<").
    + now rewrite <- !app_assoc.
    + discriminate.
    + now apply speed_re_match.
  - intros t Ht Hn. unfold Re.re_match, Re.match_at, speed_re.
    cbn [cat_all Re.exec]. fold (time_tag time_str).
    now rewrite (time_tag_local time_str a _ HT Ha t Ht Hn).
Qed.

(* ================================================================= *)
(** ** Further properties: the indentation *)

Section IndentFacts.

Lemma blank_indent (level : nat) : blank (Some (indent_of level)) = true.
Proof.
  unfold blank, indent_of. rewrite forallb_app.
  apply andb_true_iff. split; [reflexivity|].
  induction level as [|n IH]; [reflexivity|].
  cbn [repeat concat]. rewrite forallb_app, IH. reflexivity.
Qed.

Lemma blank_indent_text (level : nat) :
  blank (Some (indent_of level ++ lit "  ")) = true.
Proof.
  pose proof (blank_indent level) as H. unfold blank in *.
  rewrite forallb_app, H. reflexivity.
Qed.

Lemma unindented_set_tail (t : str) (e : ET.elem) :
  blank (Some t) = true -> blank (ET.tail e) = true ->
  unindented (set_tail t e) = unindented e.
Proof.
  destruct e as [tag att text tail cs]. cbn [ET.tail set_tail unindented].
  now intros -> ->.
Qed.

Lemma unindented_close_last (t : str) (cs : list ET.elem) :
  blank (Some t) = true ->
  map unindented (close_last t cs) = map unindented cs.
Proof.
  intros Ht. induction cs as [|c cs IH]; [reflexivity|].
  destruct cs as [|c' cs].
  - cbn [close_last map]. f_equal.
    destruct (blank (ET.tail c)) eqn:E; [|reflexivity].
    now apply unindented_set_tail.
  - change (close_last t (c :: c' :: cs))
      with (c :: close_last t (c' :: cs)).
    cbn [map] in IH |- *. now rewrite IH.
Qed.

End IndentFacts.

(** X11. [indent_xml] changes white space only: the tags, the attributes,
    the children and their order, and every text and tail that is not
    white space alone are those of the input, at every level. *)
Theorem indent_xml_keeps_data (e : ET.elem) (level : nat) :
  unindented (indent_xml e level) = unindented e.
Proof.
  revert level. induction e as [tag att text tail cs IH] using elem_induction.
  intros level. destruct cs as [|c cs].
  - cbn [indent_xml unindented map]. f_equal.
    destruct (negb (level =? 0) && blank tail) eqn:E; [|reflexivity].
    apply andb_true_iff in E as [_ E]. now rewrite blank_indent, E.
  - cbn [indent_xml]. set (l := c :: cs) in *. cbn [unindented]. f_equal.
    + destruct (blank text) eqn:E; [|now rewrite E].
      now rewrite blank_indent_text.
    + destruct (blank tail) eqn:E; [|now rewrite E].
      now rewrite blank_indent.
    + rewrite unindented_close_last by apply blank_indent.
      rewrite map_map. clearbody l.
      induction IH as [|x l Hx Hl IHl]; [reflexivity|].
      cbn [map]. now rewrite Hx, IHl.
Qed.

Section IndentTwice.

Lemma indent_tail (e : ET.elem) (level : nat) :
  ET.tail (indent_xml e (S level))
  = if blank (ET.tail e) then Some (indent_of (S level)) else ET.tail e.
Proof.
  destruct e as [tag att text tail [|c cs]]; reflexivity.
Qed.

Lemma indent_set_tail (t : str) (e : ET.elem) (level : nat) :
  blank (Some t) = true -> blank (ET.tail e) = true ->
  indent_xml (set_tail t e) (S level) = indent_xml e (S level).
Proof.
  destruct e as [tag att text tail [|c cs]];
    cbn [ET.tail set_tail indent_xml]; now intros -> ->.
Qed.

Lemma close_last_cons (t : str) (c : ET.elem) (l : list ET.elem) :
  l <> [] -> close_last t (c :: l) = c :: close_last t l.
Proof. destruct l; easy. Qed.

Lemma close_last_nonempty (t : str) (l : list ET.elem) :
  l <> [] -> close_last t l <> [].
Proof. destruct l as [|c [|c' l]]; easy. Qed.

Lemma children_stable (level : nat) (cs : list ET.elem) :
  Forall (fun c => forall n, indent_xml (indent_xml c n) n = indent_xml c n)
    cs ->
  close_last (indent_of level)
    (map (fun c => indent_xml c (S level))
       (close_last (indent_of level)
          (map (fun c => indent_xml c (S level)) cs)))
  = close_last (indent_of level) (map (fun c => indent_xml c (S level)) cs).
Proof.
  induction 1 as [|c cs Hc Hcs IH]; [reflexivity|].
  destruct cs as [|c2 cs].
  - cbn [map close_last].
    destruct (blank (ET.tail (indent_xml c (S level)))) eqn:E.
    + rewrite indent_set_tail, Hc, E by (apply blank_indent || exact E).
      reflexivity.
    + now rewrite Hc, E.
  - set (f := fun c => indent_xml c (S level)) in *.
    set (l := c2 :: cs) in *.
    assert (Hl : close_last (indent_of level) (map f l) <> [])
      by now apply close_last_nonempty.
    cbn [map]. rewrite close_last_cons by easy.
    cbn [map]. rewrite close_last_cons.
    + rewrite IH. f_equal. apply Hc.
    + destruct (close_last (indent_of level) (map f l)); easy.
Qed.

End IndentTwice.

(** X12. [indent_xml] is idempotent: indenting an indented tree again, at
    the same level, changes nothing. *)
Theorem indent_xml_idempotent (e : ET.elem) (level : nat) :
  indent_xml (indent_xml e level) level = indent_xml e level.
Proof.
  revert level. induction e as [tag att text tail cs IH] using elem_induction.
  intros level. destruct cs as [|c cs].
  - cbn [indent_xml]. f_equal.
    destruct (negb (level =? 0)); [|reflexivity].
    destruct (blank tail) eqn:E; cbn [andb].
    + now rewrite blank_indent.
    + now rewrite E.
  - set (l := c :: cs) in *.
    assert (E : indent_xml (ET.Element tag att text tail l) level
                = ET.Element tag att
                    (if blank text then Some (indent_of level ++ lit "  ")
                     else text)
                    (if blank tail then Some (indent_of level) else tail)
                    (close_last (indent_of level)
                       (map (fun c => indent_xml c (S level)) l)))
      by reflexivity.
    rewrite E.
    destruct (close_last (indent_of level)
                (map (fun c => indent_xml c (S level)) l))
      as [|x xs] eqn:El.
    { now apply close_last_nonempty in El. }
    cbn [indent_xml]. rewrite <- El, children_stable by exact IH.
    f_equal.
    + destruct (blank text) eqn:Et; [|now rewrite Et].
      now rewrite blank_indent_text.
    + destruct (blank tail) eqn:Et; [|now rewrite Et].
      now rewrite blank_indent.
Qed.

(* ================================================================= *)
(** ** Further properties: cleaning Value and Cadence *)

Section CleaningFacts.
Context {R : Runtime}.
Variable float_round : pyfloat -> Cleaning.rounded.

Lemma process_element_eq (tag : str) (att : list (str * str))
  (text tail : option str) (cs : list ET.elem) :
  Cleaning.process_element float_round (ET.Element tag att text tail cs)
  = if Cleaning.cleaned tag && Cleaning.truthy text then
      match Cleaning.clean_value float_round text true with
      | Cleaning.Returned text' =>
          let (cs', ok) := Cleaning.process_children float_round cs in
          (ET.Element tag att text' tail cs', ok)
      | Cleaning.Overflow => (ET.Element tag att text tail cs, false)
      end
    else
      let (cs', ok) := Cleaning.process_children float_round cs in
      (ET.Element tag att text tail cs', ok).
Proof. reflexivity. Qed.

Lemma process_children_uncleaned (cs : list ET.elem) :
  Forall (fun c => uncleaned (fst (Cleaning.process_element float_round c))
                   = uncleaned c) cs ->
  map uncleaned (fst (Cleaning.process_children float_round cs))
  = map uncleaned cs.
Proof.
  induction 1 as [|c cs Hc Hcs IH]; [reflexivity|].
  cbn [Cleaning.process_children].
  destruct (Cleaning.process_element float_round c) as [c' ok].
  cbn [fst] in Hc. destruct ok.
  - destruct (Cleaning.process_children float_round cs) as [cs' ok'].
    cbn [fst map] in IH |- *. now rewrite Hc, IH.
  - cbn [fst map]. now rewrite Hc.
Qed.

Lemma process_children_same (cs : list ET.elem) :
  Forall (fun c => no_number c = true ->
                   Cleaning.process_element float_round c = (c, true)) cs ->
  forallb no_number cs = true ->
  Cleaning.process_children float_round cs = (cs, true).
Proof.
  induction 1 as [|c cs Hc Hcs IH]; [reflexivity|].
  cbn [forallb]. rewrite andb_true_iff. intros [H1 H2].
  cbn [Cleaning.process_children]. now rewrite (Hc H1), (IH H2).
Qed.

End CleaningFacts.

(** X13. [process_element] changes nothing but the text of Value and
    Cadence elements: tags, attributes, tails, children and every other
    text are those of the input, also when the call ends in the exception
    it does not catch. *)
Theorem process_element_touches_values_only {R : Runtime}
  (float_round : pyfloat -> Cleaning.rounded) (e : ET.elem) :
  uncleaned (fst (Cleaning.process_element float_round e)) = uncleaned e.
Proof.
  induction e as [tag att text tail cs IH] using elem_induction.
  rewrite process_element_eq.
  pose proof (process_children_uncleaned float_round cs IH) as Hcs.
  destruct (Cleaning.process_children float_round cs) as [cs' ok].
  cbn [fst] in Hcs.
  destruct (Cleaning.cleaned tag) eqn:Ec; cbn [andb].
  - destruct (Cleaning.truthy text).
    + destruct (Cleaning.clean_value float_round text true);
        cbn [fst uncleaned]; rewrite Ec; [now rewrite Hcs|reflexivity].
    + cbn [fst uncleaned]. now rewrite Ec, Hcs.
  - cbn [fst uncleaned]. now rewrite Ec, Hcs.
Qed.

(** X14. A tree in which no Value or Cadence has a text that [float()]
    accepts is left as it is by [process_element], and the call returns. *)
Theorem process_element_without_numbers {R : Runtime}
  (float_round : pyfloat -> Cleaning.rounded) (e : ET.elem) :
  no_number e = true ->
  Cleaning.process_element float_round e = (e, true).
Proof.
  induction e as [tag att text tail cs IH] using elem_induction.
  cbn [no_number]. rewrite andb_true_iff, negb_true_iff. intros [Hn Hcs].
  rewrite process_element_eq.
  rewrite (process_children_same float_round cs IH Hcs).
  destruct (Cleaning.cleaned tag); cbn [andb] in Hn |- *; [|reflexivity].
  destruct text as [s|]; [|reflexivity].
  destruct (Cleaning.truthy (Some s)); [|reflexivity].
  cbn [Cleaning.clean_value].
  now destruct (float_parse s).
Qed.

(* ================================================================= *)
(** ** Further properties: removing the lap extensions *)

Section LapFacts.

Lemma lap_extensions_split : lap_extensions_re = lap_head lap_tail.
Proof. reflexivity. Qed.

Lemma rep_greedy_lit {A} (p : ascii -> bool) (k : str -> option A)
  (v rest : str) (r : A) :
  forallb p v = true ->
  match rest with c :: _ => p c = false | [] => True end ->
  k rest = Some r ->
  Re.rep_greedy p k (v ++ rest) = Some r.
Proof.
  intros Hv Hr Hk. apply rep_greedy_all; [exact Hv|].
  destruct rest as [|c rest]; cbn [Re.rep_greedy]; [exact Hk|].
  now rewrite Hr.
Qed.

Lemma rep_greedy_inv {A} (p : ascii -> bool) (k : str -> option A)
  (s : str) (r : A) :
  Re.rep_greedy p k s = Some r ->
  exists v s', s = v ++ s' /\ forallb p v = true /\ k s' = Some r.
Proof.
  induction s as [|c s IH]; cbn [Re.rep_greedy].
  - intros H. now exists [], [].
  - destruct (p c) eqn:Ec.
    + destruct (Re.rep_greedy p k s) as [r'|] eqn:E.
      * intros [= ->]. destruct (IH eq_refl) as (v & s' & -> & Hv & Hk).
        exists (c :: v), s'. cbn [forallb]. now rewrite Ec, Hv.
      * intros H. now exists [], (c :: s).
    + intros H. now exists [], (c :: s).
Qed.

Lemma strip_prefix_suffix (p t t' : str) :
  strip_prefix p t = Some t' -> suffix t' t.
Proof.
  intros H. apply strip_prefix_Some in H as ->. apply suffix_app.
Qed.

(** White space matched in front of a tag lies before the tag. *)
Lemma space_split (v s' t rest : str) :
  v ++ s' = t ++ rest -> forallb Re.space v = true ->
  at_tag rest = true ->
  exists t', t = v ++ t' /\ s' = t' ++ rest.
Proof.
  revert t; induction v as [|c v IH]; intros t H Hv Hr.
  - now exists t.
  - cbn [forallb] in Hv. apply andb_true_iff in Hv as [Hc Hv].
    destruct t as [|c' t].
    + destruct rest as [|e rest]; [discriminate|].
      injection H as <- _. cbn [at_tag] in Hr.
      apply Ascii.eqb_eq in Hr. subst c. discriminate.
    + injection H as <- H. destruct (IH t H Hv Hr) as (t' & -> & ->).
      now exists t'.
Qed.

(** What has to follow the lazy [.*?] is not found inside a text without
    [<Track>], if [</TPX>] comes after that text. *)
Lemma lap_tail_needs_track {A} (x t rest : str) (g : Re.caps)
  (K : str -> Re.caps -> option A) :
  occurs (lit "<Track>") x = false -> suffix t x -> t <> [] ->
  Re.exec lap_tail (t ++ lit "</TPX>" ++ rest) g K = None.
Proof.
  intros Hx Ht Hn.
  destruct (Re.exec lap_tail (t ++ lit "</TPX>" ++ rest) g K) as [r|] eqn:E;
    [exfalso|reflexivity].
  unfold lap_tail in E. cbn [cat_all Re.exec] in E.
  set (R := lit "</TPX>" ++ rest) in *.
  assert (HR : at_tag R = true) by reflexivity.
  destruct (strip_prefix (lit "</TPX>") (t ++ R)) as [s1|] eqn:E1;
    [|discriminate].
  destruct (tag_prefix_split (lit "</TPX>") _ _ _ eq_refl HR Hn E1) as (t1 & S1 & ->).
  apply rep_greedy_inv in E as (v & s' & Hs & Hv & E).
  destruct (space_split _ _ _ _ (eq_sym Hs) Hv HR) as (t1' & -> & ->).
  destruct (strip_prefix (lit "</Extensions>") (t1' ++ R)) as [s2|] eqn:E2;
    [|discriminate].
  destruct t1' as [|c1 t1']; [discriminate|].
  assert (Hn1 : c1 :: t1' <> []) by easy.
  destruct (tag_prefix_split (lit "</Extensions>") _ _ _ eq_refl HR Hn1 E2) as (t2 & S2 & ->).
  apply rep_greedy_inv in E as (v2 & s'' & Hs2 & Hv2 & E).
  destruct (space_split _ _ _ _ (eq_sym Hs2) Hv2 HR) as (t2' & -> & ->).
  destruct (strip_prefix (lit "<Track>") (t2' ++ R)) as [s3|] eqn:E3;
    [|discriminate].
  destruct t2' as [|c2 t2']; [discriminate|].
  assert (Hn2 : c2 :: t2' <> []) by easy.
  destruct (tag_prefix_split (lit "<Track>") _ _ _ eq_refl HR Hn2 E3) as (t3 & S3 & _).
  assert (Hsuf : suffix (c2 :: t2') x).
  { apply (suffix_trans _ (v2 ++ c2 :: t2')); [apply suffix_app|].
    apply (suffix_trans _ (c1 :: t1'));
      [now apply (strip_prefix_suffix (lit "</Extensions>"))|].
    apply (suffix_trans _ (v ++ c1 :: t1')); [apply suffix_app|].
    apply (suffix_trans _ t);
      [now apply (strip_prefix_suffix (lit "</TPX>"))|exact Ht]. }
  rewrite (occurs_suffix _ _ _ Hx Hsuf) in S3. discriminate.
Qed.

Lemma lap_tail_needs_close {A} (x t rest : str) (g : Re.caps)
  (K : str -> Re.caps -> option A) :
  occurs (lit "</TPX>") x = false -> suffix t x -> t <> [] ->
  Re.exec lap_tail (t ++ lit "</TPX>" ++ rest) g K = None.
Proof.
  intros Hx Ht Hn. unfold lap_tail. cbn [cat_all Re.exec].
  rewrite (strip_prefix_tag_local (lit "</TPX>") t); try easy.
  now apply (occurs_suffix _ x).
Qed.

Lemma lap_extensions_match (w1 attrs x w2 w3 b : str) :
  forallb Re.space w1 = true -> forallb Re.not_gt attrs = true ->
  occurs (lit "</TPX>") x = false \/ occurs (lit "<Track>") x = false ->
  forallb Re.space w2 = true -> forallb Re.space w3 = true ->
  Re.re_match lap_extensions_re []
    ((lit "<Extensions>" ++ w1 ++ lit "<TPX" ++ attrs ++ lit ">" ++ x
      ++ lit "</TPX>" ++ w2 ++ lit "</Extensions>" ++ w3)
     ++ lit "<Track>" ++ b)
  = Some (length (lit "<Extensions>" ++ w1 ++ lit "<TPX" ++ attrs ++ lit ">"
                  ++ x ++ lit "</TPX>" ++ w2 ++ lit "</Extensions>" ++ w3),
          []).
Proof.
  intros H1 Ha Hx H2 H3.
  rewrite lap_extensions_split.
  unfold Re.re_match, Re.match_at, lap_head.
  cbn [Re.exec]. rewrite <- !app_assoc, strip_prefix_app.
  erewrite rep_greedy_lit; [|exact H1|reflexivity|].
  2:{ rewrite strip_prefix_app.
      apply rep_greedy_lit; [exact Ha|reflexivity|].
      rewrite strip_prefix_app.
      rewrite rep_lazy_skip; [|now apply forallb_forall|].
      - apply rep_lazy_now. unfold lap_tail. cbn [cat_all Re.exec].
        rewrite strip_prefix_app.
        apply rep_greedy_lit; [exact H2|reflexivity|].
        rewrite strip_prefix_app.
        apply rep_greedy_lit; [exact H3|reflexivity|].
        rewrite strip_prefix_app. reflexivity.
      - intros t Ht Hn. destruct Hx as [Hx|Hx].
        + now apply (lap_tail_needs_close x).
        + now apply (lap_tail_needs_track x). }
  cbn [Re.expand flat_map]. do 2 f_equal.
  rewrite !length_app. cbn [length lit String.list_ascii_of_string]. lia.
Qed.

Lemma lap_extensions_removed (a w1 attrs x w2 w3 b : str) :
  occurs (lit "<Extensions>") a = false ->
  forallb Re.space w1 = true -> forallb Re.not_gt attrs = true ->
  occurs (lit "</TPX>") x = false \/ occurs (lit "<Track>") x = false ->
  forallb Re.space w2 = true -> forallb Re.space w3 = true ->
  remove_lap_extensions
    (a ++ lit "<Extensions>" ++ w1 ++ lit "<TPX" ++ attrs ++ lit ">" ++ x
     ++ lit "</TPX>" ++ w2 ++ lit "</Extensions>" ++ w3 ++ lit "<Track>"
     ++ b)
  = a ++ remove_lap_extensions (lit "<Track>" ++ b).
Proof.
  intros Ha H1 Hat Hx H2 H3. unfold remove_lap_extensions, Re.sub.
  rewrite scan_prefix_miss.
  - f_equal.
    replace (lit "<Extensions>" ++ w1 ++ lit "<TPX" ++ attrs ++ lit ">" ++ x
             ++ lit "</TPX>" ++ w2 ++ lit "</Extensions>" ++ w3
             ++ lit "<Track>" ++ b)
      with ((lit "<Extensions>" ++ w1 ++ lit "<TPX" ++ attrs ++ lit ">" ++ x
             ++ lit "</TPX>" ++ w2 ++ lit "</Extensions>" ++ w3)
            ++ lit "<Track>" ++ b) by now rewrite <- !app_assoc.
    rewrite scan_hit with (new := []); [reflexivity|discriminate|].
    now apply lap_extensions_match.
  - intros t Ht Hn. unfold Re.re_match, Re.match_at, lap_extensions_re.
    cbn [cat_all Re.exec].
    rewrite (strip_prefix_tag_local (lit "<Extensions>") t); try easy.
    now apply (occurs_suffix _ a).
Qed.

End LapFacts.

(** X15. The first Extensions element of a text is removed when it opens
    with a TPX element and the Track follows it: everything from
    [<Extensions>] to the white space before [<Track>] goes, and the text
    before it is kept. *)
Theorem remove_lap_extensions_block (a w1 attrs x w2 w3 b : str) :
  occurs (lit "<Extensions>") a = false ->
  forallb Re.space w1 = true -> forallb Re.not_gt attrs = true ->
  occurs (lit "</TPX>") x = false ->
  forallb Re.space w2 = true -> forallb Re.space w3 = true ->
  remove_lap_extensions
    (a ++ lit "<Extensions>" ++ w1 ++ lit "<TPX" ++ attrs ++ lit ">" ++ x
     ++ lit "</TPX>" ++ w2 ++ lit "</Extensions>" ++ w3 ++ lit "<Track>"
     ++ b)
  = a ++ remove_lap_extensions (lit "<Track>" ++ b).
Proof.
  intros Ha H1 Hat Hx H2 H3. apply lap_extensions_removed; auto.
Qed.

(** X16. The removal does not stop at the end of the element it starts
    in: from the first [<Extensions>] that a TPX follows, it runs on to the
    first [</TPX>], [</Extensions>] that a [<Track>] follows. When the text
    in between holds no [<Track>], all of it goes, whatever elements it
    closes and opens. *)
Theorem remove_lap_extensions_runs_on (a w1 attrs x w2 w3 b : str) :
  occurs (lit "<Extensions>") a = false ->
  forallb Re.space w1 = true -> forallb Re.not_gt attrs = true ->
  occurs (lit "<Track>") x = false ->
  forallb Re.space w2 = true -> forallb Re.space w3 = true ->
  remove_lap_extensions
    (a ++ lit "<Extensions>" ++ w1 ++ lit "<TPX" ++ attrs ++ lit ">" ++ x
     ++ lit "</TPX>" ++ w2 ++ lit "</Extensions>" ++ w3 ++ lit "<Track>"
     ++ b)
  = a ++ remove_lap_extensions (lit "<Track>" ++ b).
Proof.
  intros Ha H1 Hat Hx H2 H3. apply lap_extensions_removed; auto.
Qed.

(* ================================================================= *)
(** ** Further properties: the speed between two samples *)

Section PairFacts.
Context {R : Runtime}.

(** One iteration on a sample: the distance is read, the speed computed
    from the predecessor the loop carries, and the sample becomes the
    predecessor. *)
Lemma trackpoint_step_sample (st st' : loop_state pyfloat)
  (tp time_elem dist_elem : ET.elem) :
  ET.find (tcx "Time") tp = Some time_elem ->
  ET.find (tcx "DistanceMeters") tp = Some dist_elem ->
  trackpoint_step st tp = Ok st' ->
  exists d v,
    float_of_text (ET.text dist_elem) = Ok d
    /\ calculate_speed (prev_distance st) d (prev_time st)
         (ET.text time_elem) = Ok v
    /\ speed_data st'
       = dict_set key_eqb (speed_data st) (ET.text time_elem) v
    /\ prev_distance st' = d
    /\ prev_time st' = ET.text time_elem.
Proof.
  intros Ht Hd. unfold trackpoint_step. rewrite Ht, Hd.
  destruct (float_of_text (ET.text dist_elem)) as [d|]; simpl;
    [|discriminate].
  destruct (calculate_speed _ _ _ _) as [v|] eqn:E; simpl; [|discriminate].
  intros [= <-]. now exists d, v.
Qed.

End PairFacts.

(** X17. The speed under the timestamp of a sample is the one computed
    from the sample before it in the same track - the trackpoints between
    the two lacking a Time or a DistanceMeters - with the distances and the
    timestamps of these two samples, provided no later sample carries the
    same timestamp. *)
Theorem speed_between_samples {R : Runtime}
  (tree : ET.elem) (sd : speed_table) (before : list ET.elem)
  (track : ET.elem) (after pre : list ET.elem) (tp1 : ET.elem)
  (mid : list ET.elem) (tp2 : ET.elem) (post : list ET.elem)
  (time1 dist1 time2 dist2 : ET.elem) :
  build_speed_data tree = Ok sd ->
  processed_tracks tree = before ++ track :: after ->
  ET.findall (tcx "Trackpoint") track = pre ++ tp1 :: mid ++ tp2 :: post ->
  ET.find (tcx "Time") tp1 = Some time1 ->
  ET.find (tcx "DistanceMeters") tp1 = Some dist1 ->
  (forall x, In x mid -> sample_key x = None) ->
  ET.find (tcx "Time") tp2 = Some time2 ->
  ET.find (tcx "DistanceMeters") tp2 = Some dist2 ->
  (forall x, In x post -> sample_key x <> Some (ET.text time2)) ->
  (forall t x, In t after -> In x (ET.findall (tcx "Trackpoint") t) ->
               sample_key x <> Some (ET.text time2)) ->
  exists d1 d2 v,
    float_of_text (ET.text dist1) = Ok d1
    /\ float_of_text (ET.text dist2) = Ok d2
    /\ calculate_speed d1 d2 (ET.text time1) (ET.text time2) = Ok v
    /\ dict_get key_eqb sd (ET.text time2) = Some v.
Proof.
  intros Hb Htr Htp Ht1 Hd1 Hmid Ht2 Hd2 Hpost Hafter.
  rewrite build_speed_data_tracks, Htr in Hb.
  apply for_each_split in Hb as (sd1 & sd2 & _ & Htrack & Hrest).
  rewrite (tracks_keep_entry after sd2 sd _ Hafter Hrest).
  apply track_speeds_loop in Htrack as (st & Hloop & <-).
  rewrite Htp in Hloop.
  apply for_each_split in Hloop as (s1 & s2 & _ & H1 & Hloop).
  apply for_each_split in Hloop as (s3 & s4 & H3 & H2 & H4).
  rewrite (for_each_skipped _ _ Hmid) in H3. injection H3 as <-.
  rewrite (loop_keeps_entry post s4 st _ Hpost H4).
  destruct (trackpoint_step_sample _ _ _ _ _ Ht1 Hd1 H1)
    as (d1 & v1 & E1 & _ & _ & P1 & P2).
  destruct (trackpoint_step_sample _ _ _ _ _ Ht2 Hd2 H2)
    as (d2 & v & E2 & Ev & Es & _ & _).
  rewrite P1, P2 in Ev.
  exists d1, d2, v. repeat split; try assumption.
  rewrite Es. apply dict_get_set_same, key_eqb_eq.
Qed.

(* ================================================================= *)
(** ** The further properties on the examples *)

Section FurtherOnSamples.
Import Demo Samples.

Lemma speed_table_key_order_witness :
  build_speed_data two_laps_tree = Ok laps_table
  /\ map fst laps_table = first_occurrences (document_keys two_laps_tree).
Proof.
  split; [vm_compute; reflexivity|].
  apply (speed_table_key_order (R:=runtime) two_laps_tree laps_table).
  vm_compute; reflexivity.
Defined.

Lemma speed_table_keys_unique_witness :
  build_speed_data two_laps_tree = Ok laps_table
  /\ NoDup (map fst laps_table)
  /\ (forall k, In k (map fst laps_table)
                <-> In k (document_keys two_laps_tree))
  /\ length laps_table <= length (document_keys two_laps_tree).
Proof.
  split; [vm_compute; reflexivity|].
  apply (speed_table_keys_unique (R:=runtime) two_laps_tree laps_table).
  vm_compute; reflexivity.
Defined.

Lemma speed_table_distances_parse_witness :
  build_speed_data ride_tree = Ok ride_table
  /\ exists s x,
       ET.text ride_distance = Some s /\ float_parse s = Some x.
Proof.
  split; [vm_compute; reflexivity|].
  apply (speed_table_distances_parse (R:=runtime) ride_tree ride_track
           ride_first ride_time ride_distance ride_table).
  - vm_compute; reflexivity.
  - vm_compute. left. reflexivity.
  - vm_compute. left. reflexivity.
  - vm_compute; reflexivity.
  - vm_compute; reflexivity.
Defined.

Lemma remove_creator_element_witness :
  remove_creator
    (lit "<Activity>" ++ lit "<Creator>"
     ++ (lit "<Name>Peloton Bike</Name>" ++ lit newline
         ++ lit "<Version><VersionMajor>1</VersionMajor></Version>")
     ++ lit "</Creator>" ++ lit "</Activity>")
  = lit "<Activity>" ++ remove_creator (lit "</Activity>").
Proof.
  apply remove_creator_element; reflexivity.
Defined.

Lemma remove_resistance_element_witness :
  remove_resistance
    (lit "<ns3:TPX>" ++ lit "<Resistance>" ++ lit "35.0"
     ++ lit "</Resistance>" ++ lit "</ns3:TPX>")
  = lit "<ns3:TPX>" ++ remove_resistance (lit "</ns3:TPX>").
Proof.
  apply remove_resistance_element; reflexivity.
Defined.

Lemma inject_step_no_target_witness :
  inject_step (lit "<Time>2024-01-01T10:00:00Z</Time><ns3:Speed>5.0<")
    (key_of t1, Float (3 # 2)%Q)
  = Ok (lit "<Time>2024-01-01T10:00:00Z</Time><ns3:Speed>5.0<").
Proof.
  apply (inject_step_no_target (R:=runtime)). left. reflexivity.
Defined.

Lemma inject_step_sets_speed_witness :
  inject_step
    (lit "<Trackpoint>" ++ time_tag (lit t1)
     ++ lit "<DistanceMeters>10.0</DistanceMeters><Extensions><ns3:TPX>"
     ++ lit "<ns3:Speed>" ++ lit "5.25" ++ lit "<"
     ++ lit "/ns3:Speed></ns3:TPX></Extensions></Trackpoint>")
    (Some (lit t1), Float (3 # 2)%Q)
  = Ok (lit "<Trackpoint>" ++ time_tag (lit t1)
        ++ lit "<DistanceMeters>10.0</DistanceMeters><Extensions><ns3:TPX>"
        ++ lit "<ns3:Speed>" ++ format_num (Float (3 # 2)%Q) ++ lit "<"
        ++ lit "/ns3:Speed></ns3:TPX></Extensions></Trackpoint>").
Proof.
  apply (inject_step_sets_speed (R:=runtime)); try reflexivity.
  discriminate.
Defined.

Lemma process_element_without_numbers_witness :
  Cleaning.process_element (R:=runtime) (fun _ => Cleaning.RoundNaN)
    (ET.Element (tcx "HeartRateBpm") [] None None
       [ET.Element (tcx "Value") [] (Some (lit "n/a")) None []])
  = (ET.Element (tcx "HeartRateBpm") [] None None
       [ET.Element (tcx "Value") [] (Some (lit "n/a")) None []], true).
Proof.
  apply (process_element_without_numbers (R:=runtime)).
  vm_compute; reflexivity.
Defined.

Lemma remove_lap_extensions_block_witness :
  remove_lap_extensions
    (lit "<Lap>" ++ lit "<Extensions>" ++ lit newline ++ lit "<TPX"
     ++ lit " xmlns=1" ++ lit ">" ++ lit "<AvgWatts>150</AvgWatts>"
     ++ lit "</TPX>" ++ lit newline ++ lit "</Extensions>" ++ lit newline
     ++ lit "<Track>" ++ lit "</Track></Lap>")
  = lit "<Lap>" ++ remove_lap_extensions (lit "<Track>" ++ lit "</Track></Lap>").
Proof.
  apply remove_lap_extensions_block; reflexivity.
Defined.

(** The second lap of a text: the match starts in the last trackpoint of
    the first lap and takes the end of that lap and the start of the next
    with it. *)
Lemma remove_lap_extensions_runs_on_witness :
  remove_lap_extensions
    (lit "<Trackpoint>" ++ lit "<Extensions>" ++ [] ++ lit "<TPX" ++ []
     ++ lit ">"
     ++ (lit "<Watts>100</Watts></TPX></Extensions></Trackpoint>"
         ++ lit "</Track></Lap><Lap><Extensions><TPX>"
         ++ lit "<AvgWatts>150</AvgWatts>")
     ++ lit "</TPX>" ++ [] ++ lit "</Extensions>" ++ [] ++ lit "<Track>"
     ++ lit "</Track></Lap>")
  = lit "<Trackpoint>"
    ++ remove_lap_extensions (lit "<Track>" ++ lit "</Track></Lap>").
Proof.
  apply remove_lap_extensions_runs_on; reflexivity.
Defined.

Lemma speed_between_samples_witness :
  build_speed_data ride_tree = Ok ride_table
  /\ exists d1 d2 v,
       float_of_text (ET.text ride_distance) = Ok d1
       /\ float_of_text (ET.text ride_second_distance) = Ok d2
       /\ calculate_speed d1 d2 (ET.text ride_time)
            (ET.text ride_second_time) = Ok v
       /\ dict_get key_eqb ride_table (ET.text ride_second_time) = Some v.
Proof.
  split; [vm_compute; reflexivity|].
  apply (speed_between_samples (R:=runtime) ride_tree ride_table []
           ride_track [] [] ride_first [] ride_second [ride_third]
           ride_time ride_distance ride_second_time ride_second_distance).
  - vm_compute; reflexivity.
  - vm_compute; reflexivity.
  - vm_compute; reflexivity.
  - vm_compute; reflexivity.
  - vm_compute; reflexivity.
  - intros x [].
  - vm_compute; reflexivity.
  - vm_compute; reflexivity.
  - assert (H : sample_key ride_third = Some (key_of t2))
      by (vm_compute; reflexivity).
    intros x [<-|[]]. rewrite H. discriminate.
  - intros t x [].
Defined.

End FurtherOnSamples.
